(** * mongoose-validator: a shallow embedding of [lib/mongoose-validator.js]

    The module builds validator descriptors for a schema layer out of the
    rules of an external validation library and of a process-wide registry
    of custom rules.  This development embeds the JavaScript values the
    module handles, the predicates it borrows from the [is] package, its
    helpers ([omit], [getValidatorFn], [toArray], [findFirstString],
    [interpolateMessageWithArgs], [createValidator]) and its two entry
    points ([validate], [validate.extend]), and proves the properties of
    the specification about them. *)

From Stdlib Require Import ZArith String Ascii List Lia.
From Stdlib Require Import DecimalString DecimalPos DecimalN.
From stdpp Require Import gmap strings list fin_maps.

Local Set Warnings "-register-all".
Local Open Scope string_scope.

(** ** JavaScript values

    Numbers are the integral ones (the arguments of the rules are lengths,
    bounds and the like).  An object is the finite map of its own enumerable
    data properties; every object of the program inherits from
    [Object.prototype], see [obj_get].  Functions are defunctionalised: a
    host function is known by a name, and the two closures that the module
    itself allocates are constructors that carry their captured variables. *)

Inductive jsval : Type :=
| JsUndefined
| JsNull
| JsBool (b : bool)
| JsNum (n : Z)
| JsStr (s : string)
| JsArr (elems : list jsval)
| JsObj (props : gmap string jsval)
| JsFun (f : func)
with func : Type :=
| Native (id : string)
    (* a function of the host: a rule of validator.js, a caller's predicate *)
| ExtendWrapper (fn : jsval)
    (* function () { return fn.apply(this, args) }, allocated by extend *)
| ValidatorClosure (fn : jsval) (args : list jsval) (passIfEmpty : bool).
    (* function validator(val) { ... }, allocated by createValidator *)

(** What a call can raise: the [Error]s this module constructs, the
    [TypeError] of the engine, or whatever a host function throws. *)
Inductive exn : Type :=
| Error (message : string)
| TypeError (message : string)
| Thrown (v : jsval).

Inductive outcome (A : Type) : Type :=
| Return (a : A)
| Throw (e : exn).
Arguments Return {A} a.
Arguments Throw {A} e.

#[global] Instance outcome_ret : MRet outcome := fun A a => Return a.

#[global] Instance outcome_bind : MBind outcome := fun A B k m =>
  match m with
  | Return a => k a
  | Throw e => Throw e
  end.

(** The calls a function body makes, in order. *)
Inductive event : Type :=
| Invoke (f : func) (this : jsval) (args : list jsval).

(** A run of a function body: the calls it made and how it ended. *)
Definition run : Type := list event * outcome jsval.

(** The environment the module is loaded in: the functions of the host,
    the text the host prints for a function and for a number beyond the
    safe integers, the own properties of the object that
    [require('validator')] answers, and the table read from
    [default-error-messages.json], which is not part of the sources at
    hand and is therefore left open. *)
Record host : Type := {
  native : string -> jsval -> list jsval -> outcome jsval;
  fun_source : func -> string;
  number_source : Z -> string;
  validatorjs : gmap string jsval;
  defaultErrorMessages : gmap string jsval
}.

(** ** The language's own operations *)

(** [typeof v]; the source's [_typeof] helper differs from it on symbols
    only, which are not values of this model. *)
Definition typeof (v : jsval) : string :=
  match v with
  | JsUndefined => "undefined"
  | JsNull => "object"
  | JsBool _ => "boolean"
  | JsNum _ => "number"
  | JsStr _ => "string"
  | JsArr _ => "object"
  | JsObj _ => "object"
  | JsFun _ => "function"
  end.

(** ToBoolean. *)
Definition truthy (v : jsval) : bool :=
  match v with
  | JsUndefined | JsNull => false
  | JsBool b => b
  | JsNum n => negb (n =? 0)%Z
  | JsStr s => negb (String.eqb s "")
  | JsArr _ | JsObj _ | JsFun _ => true
  end.

(** [a || b]. *)
Definition js_or (a b : jsval) : jsval := if truthy a then a else b.

(** The text of a string value, used where the source has already checked
    [is.string]. *)
Definition str_of (v : jsval) : string :=
  match v with
  | JsStr s => s
  | _ => ""
  end.

(** The members every plain object inherits from [Object.prototype]. *)
Definition object_prototype_methods : gmap string jsval :=
  list_to_map
    (("constructor", JsFun (Native "Object")) ::
     map (fun n => (n, JsFun (Native ("Object.prototype." +:+ n))))
       ["hasOwnProperty"; "isPrototypeOf"; "propertyIsEnumerable";
        "toLocaleString"; "toString"; "valueOf";
        "__defineGetter__"; "__defineSetter__";
        "__lookupGetter__"; "__lookupSetter__"]).

(** Reading an inherited property: [__proto__] is an accessor whose getter
    answers the prototype itself. *)
Definition inherited (key : string) : option jsval :=
  if decide (key = "__proto__") then Some (JsObj object_prototype_methods)
  else object_prototype_methods !! key.

(** [obj[key]]: the own property, else the inherited one, else undefined. *)
Definition obj_get (obj : gmap string jsval) (key : string) : jsval :=
  match obj !! key with
  | Some v => v
  | None => default JsUndefined (inherited key)
  end.

(** [obj[key] = v], as seen on the own properties of [obj]: a new own
    property is created or an existing one overwritten, except that an
    assignment to [__proto__] on an object without such an own property
    runs the inherited setter, which creates no own property. *)
Definition obj_set (obj : gmap string jsval) (key : string) (v : jsval)
  : gmap string jsval :=
  if decide (key = "__proto__" /\ obj !! key = None) then obj
  else <[key := v]> obj.

(** [Object.keys(obj)]; the order is the map's, the source's results do not
    depend on it. *)
Definition object_keys (obj : gmap string jsval) : list string :=
  (map_to_list obj).*1.

(** [Object.assign(target, source)]: every own property of [source] is
    assigned on [target]. *)
Definition object_assign (target source : gmap string jsval)
  : gmap string jsval :=
  foldl (fun acc key => obj_set acc key (obj_get source key)) target
        (object_keys source).

(** ** The predicates of the [is] package *)

Definition is_function (v : jsval) : bool :=
  match v with JsFun _ => true | _ => false end.

Definition is_string (v : jsval) : bool :=
  match v with JsStr _ => true | _ => false end.

Definition is_array (v : jsval) : bool :=
  match v with JsArr _ => true | _ => false end.

Definition is_nil (v : jsval) : bool :=
  match v with JsNull => true | _ => false end.

Definition is_undef (v : jsval) : bool :=
  match v with JsUndefined => true | _ => false end.

(** [is.empty]: arrays and strings of length 0, objects without own
    properties, and otherwise every falsy value. *)
Definition is_empty (v : jsval) : bool :=
  match v with
  | JsArr elems => Nat.eqb (List.length elems) 0
  | JsStr s => Nat.eqb (String.length s) 0
  | JsObj props => bool_decide (props = ∅)
  | _ => negb (truthy v)
  end.

(** ** Calling functions *)

(** [fn.apply(this, args)] for a callee whose body is run by [rec]: the
    call is recorded and the callee's own calls follow it.  A value that is
    not a function has no callable [apply]; objects that hold a function
    of their own under the key [apply] are not considered. *)
Definition apply_with (rec : func -> jsval -> list jsval -> run)
    (fn this : jsval) (args : list jsval) : run :=
  match fn with
  | JsFun g => let '(calls, r) := rec g this args in
               (Invoke g this args :: calls, r)
  | _ => ([], Throw (TypeError "fn.apply is not a function"))
  end.

(** The body of function [f] run with receiver [this] on the arguments
    [arguments]. *)
Fixpoint call (h : host) (f : func) (this : jsval) (arguments : list jsval)
  : run :=
  match f with
  | Native id => ([], native h id this arguments)
  | ExtendWrapper fn =>
      (* return fn.apply(this, args) *)
      apply_with (call h) fn this arguments
  | ValidatorClosure fn args passIfEmpty =>
      let val := hd JsUndefined arguments in
      let validatorArgs := val :: args in
      if passIfEmpty && (is_empty val || is_nil val) || is_undef val
      then ([], Return (JsBool true))
      else apply_with (call h) fn this validatorArgs
  end.

(** [fn.apply(this, args)]. *)
Definition apply (h : host) : jsval -> jsval -> list jsval -> run :=
  apply_with (call h).

(** ** The helpers of the module *)

(** [toArray(val = [])]: the default stands in for an undefined argument. *)
Definition toArray (val : jsval) : list jsval :=
  let val := if is_undef val then JsArr [] else val in
  match val with
  | JsArr elems => elems
  | _ => [val]
  end.

(** [createValidator(fn, args, passIfEmpty)] *)
Definition createValidator (fn : jsval) (args : list jsval)
    (passIfEmpty : bool) : jsval :=
  JsFun (ValidatorClosure fn args passIfEmpty).

(** ** Message templates *)

(** [\d] *)
Definition is_digit (c : ascii) : bool :=
  (48 <=? nat_of_ascii c)%nat && (nat_of_ascii c <=? 57)%nat.

(** The longest run of digits [s] starts with, and what follows it. *)
Fixpoint span_digits (s : string) : string * string :=
  match s with
  | String c s' =>
      if is_digit c
      then let '(ds, rest) := span_digits s' in (String c ds, rest)
      else ("", s)
  | EmptyString => ("", s)
  end.

(** [s] without its prefix [p], when it starts with it. *)
Fixpoint strip_prefix (p s : string) : option string :=
  match p, s with
  | EmptyString, _ => Some s
  | String a p', String b s' =>
      if Ascii.eqb a b then strip_prefix p' s' else None
  | String _ _, EmptyString => None
  end.

(** A match of [/{ARGS\[(\d+)\]}/] anchored at the start of [s]: the
    captured digits.  The run of digits is followed by a bracket, so the
    greedy match is the only one. *)
Definition token_at (s : string) : option string :=
  match strip_prefix "{ARGS[" s with
  | Some s1 =>
      let '(ds, s2) := span_digits s1 in
      if String.eqb ds "" then None
      else match strip_prefix "]}" s2 with
           | Some _ => Some ds
           | None => None
           end
  | None => None
  end.

(** The text a match with digits [ds] spans. *)
Definition token_text (ds : string) : string := "{ARGS[" +:+ ds +:+ "]}".

(** Some [{ARGS[n]}] occurs in [s]. *)
Fixpoint contains_token (s : string) : bool :=
  match s with
  | EmptyString => false
  | String _ s' => bool_decide (is_Some (token_at s)) || contains_token s'
  end.

(** [message.replace(/{ARGS\[(\d+)\]}/g, replacer)]: the text is scanned
    once from the left; where a match starts, the replacer's text is put
    out and the scan resumes after the match ([skip] counts the characters
    of the match still to pass over); elsewhere the character is kept.
    What the replacer throws, [replace] throws. *)
Fixpoint replace_tokens (replacer : string -> outcome string) (skip : nat)
    (s : string) : outcome string :=
  match s with
  | EmptyString => Return EmptyString
  | String c s' =>
      match skip with
      | S skip' => replace_tokens replacer skip' s'
      | O =>
          match token_at s with
          | Some ds =>
              t ← replacer ds;
              rest ← replace_tokens replacer
                       (String.length (token_text ds) - 1) s';
              Return (t +:+ rest)
          | None =>
              rest ← replace_tokens replacer 0 s';
              Return (String c rest)
          end
      end
  end.

(** The decimal numeral of [n]. *)
Definition decimal (n : N) : string := NilZero.string_of_uint (N.to_uint n).

(** [args[key]] on an array: an element when [key] is the canonical numeral
    of an index in range; no other key made of digits names a property. *)
Definition array_get (elems : list jsval) (key : string) : jsval :=
  match NilZero.uint_of_string key with
  | Some u =>
      if String.eqb (decimal (N.of_uint u)) key
      then default JsUndefined (elems !! N.to_nat (N.of_uint u))
      else JsUndefined
  | None => JsUndefined
  end.

(** A value that is no object: neither array, nor object, nor function. *)
Definition is_primitive (v : jsval) : bool :=
  match v with
  | JsArr _ | JsObj _ | JsFun _ => false
  | _ => true
  end.

(** Number::toString on the integers: the decimal numeral within the safe
    integers, where every integer is a number of its own; beyond them the
    engine prints the shortest digits that read back as the same number,
    padded with zeros or in exponent form, which is left to the host. *)
Definition number_to_string (h : host) (n : Z) : string :=
  if (Z.abs n <=? 2 ^ 53)%Z then NilZero.string_of_int (Z.to_int n)
  else number_source h n.

(** ToString of a value that is no object. *)
Definition primitive_to_string (h : host) (v : jsval) : string :=
  match v with
  | JsUndefined => "undefined"
  | JsNull => "null"
  | JsBool true => "true"
  | JsBool false => "false"
  | JsNum n => number_to_string h n
  | JsStr s => s
  | JsArr _ | JsObj _ | JsFun _ => ""
  end.

(** One step of OrdinaryToPrimitive: [method], when it is callable, is
    called on [obj] without arguments; what it answers counts when it is
    no object. *)
Definition call_method (h : host) (obj method : jsval)
  : outcome (option jsval) :=
  match method with
  | JsFun f =>
      r ← (call h f obj []).2;
      Return (if is_primitive r then Some r else None)
  | _ => Return None
  end.

(** ToPrimitive of a plain object, for a text: its [toString] is tried,
    then its [valueOf]; when neither is callable and answers a value that
    is no object, a TypeError is thrown.  The inherited [toString] answers
    ['[object Object]'], the inherited [valueOf] the object itself. *)
Definition to_primitive (h : host) (props : gmap string jsval)
  : outcome jsval :=
  by_toString ← match props !! "toString" with
                 | Some method => call_method h (JsObj props) method
                 | None => Return (Some (JsStr "[object Object]"))
                 end;
  match by_toString with
  | Some p => Return p
  | None =>
      by_valueOf ← match props !! "valueOf" with
                    | Some method => call_method h (JsObj props) method
                    | None => Return None
                    end;
      match by_valueOf with
      | Some p => Return p
      | None =>
          Throw (TypeError "Cannot convert object to primitive value")
      end
  end.

(** ToString, as [replace] applies it to what the replacer answers. *)
Fixpoint to_string (h : host) (v : jsval) : outcome string :=
  match v with
  | JsArr elems =>
      (* Array.prototype.join: null and undefined elements print empty *)
      (fix join (l : list jsval) : outcome string :=
         match l with
         | [] => Return ""
         | x :: l' =>
             sx ← (if is_undef x || is_nil x then Return ""
                   else to_string h x);
             match l' with
             | [] => Return sx
             | _ :: _ => rest ← join l'; Return (sx +:+ "," +:+ rest)
             end
         end) elems
  | JsObj props =>
      p ← to_primitive h props; Return (primitive_to_string h p)
  | JsFun f => Return (fun_source h f)
  | _ => Return (primitive_to_string h v)
  end.

(** The replacer of the source: [args[submatch] || ''], which [replace]
    then coerces to text. *)
Definition replacer (h : host) (args : list jsval) (submatch : string)
  : outcome string :=
  to_string h (js_or (array_get args submatch) (JsStr "")).

(** [interpolateMessageWithArgs(message = '', args)]; [replace] is a method
    of strings only. *)
Definition interpolateMessageWithArgs (h : host) (message : jsval)
    (args : list jsval) : outcome jsval :=
  let message := if is_undef message then JsStr "" else message in
  match message with
  | JsStr m =>
      t ← replace_tokens (replacer h args) 0 m; Return (JsStr t)
  | _ => Throw (TypeError "message.replace is not a function")
  end.

(** The value has a text: its coercion does not throw. *)
Definition coerces (h : host) (v : jsval) : bool :=
  match to_string h v with
  | Return _ => true
  | Throw _ => false
  end.

(** [findFirstString(...vals)]: [vals.filter(is.string).shift()]. *)
Definition findFirstString (vals : list jsval) : jsval :=
  hd JsUndefined (List.filter is_string vals).

(** ** The module *)

(** The two process-wide tables of the module, [{}] when it is loaded. *)
Record registry : Type := {
  customValidators : gmap string jsval;
  customErrorMessages : gmap string jsval
}.

Definition initial : registry :=
  {| customValidators := ∅; customErrorMessages := ∅ |}.

(** [omit(obj, ...keys)] *)
Definition omit (obj : gmap string jsval) (keys : list string)
  : gmap string jsval :=
  foldl (fun acc val => obj_set acc val (obj_get obj val)) ∅
        (filter (fun key => key ∉ keys) (object_keys obj)).

(** [getValidatorFn(validator)] *)
Definition getValidatorFn (h : host) (s : registry) (validator : jsval)
  : jsval :=
  if is_function validator then validator
  else if is_string validator && negb (is_empty validator)
  then js_or (js_or (obj_get (validatorjs h) (str_of validator))
                    (obj_get (customValidators s) (str_of validator)))
             JsUndefined
  else JsUndefined.

(** The [messageStr] of [validate]: the template before interpolation. *)
Definition messageStr (h : host) (s : registry)
    (options : gmap string jsval) : jsval :=
  let validatorName :=
    if is_string (obj_get options "validator")
    then str_of (obj_get options "validator") else "" in
  findFirstString
    [obj_get options "message";
     obj_get (customErrorMessages s) validatorName;
     obj_get (defaultErrorMessages h) validatorName;
     JsStr "Error"].

(** [validate(options)]: the descriptor, or the error thrown.  The registry
    is only read. *)
Definition validate (h : host) (s : registry) (options : gmap string jsval)
  : outcome (gmap string jsval) :=
  if is_undef (obj_get options "validator")
  then Throw (Error "validator option undefined")
  else if negb (is_function (obj_get options "validator"))
          && negb (is_string (obj_get options "validator"))
  then Throw (Error ("validator must be of type function or string, received "
                     +:+ typeof (obj_get options "validator")))
  else
    let validatorName :=
      if is_string (obj_get options "validator")
      then str_of (obj_get options "validator") else "" in
    let validatorFn := getValidatorFn h s (obj_get options "validator") in
    if is_undef validatorFn
    then Throw (Error ("validator `" +:+ validatorName +:+
                       "` does not exist in validator.js or as a custom validator"))
    else
      let passIfEmpty := truthy (obj_get options "passIfEmpty") in
      let mongooseOpts :=
        omit options ["passIfEmpty"; "message"; "validator"; "arguments"] in
      let args := toArray (obj_get options "arguments") in
      message ← interpolateMessageWithArgs h (messageStr h s options) args;
      let validator := createValidator validatorFn args passIfEmpty in
      Return (object_assign
                (<["validator" := validator]> (<["message" := message]> ∅))
                mongooseOpts).

(** [validate.extend(name, fn, msg = 'Error')]: the registry after the
    call, and how the call ended. *)
Definition extend (s : registry) (name fn msg : jsval)
  : registry * outcome jsval :=
  let msg := if is_undef msg then JsStr "Error" else msg in
  if negb (String.eqb (typeof name) "string")
  then (s, Throw (Error ("name must be a string, received " +:+ typeof name)))
  else if negb (String.eqb (typeof fn) "function")
  then (s, Throw (Error ("validator must be a function, received "
                         +:+ typeof fn)))
  else if negb (String.eqb (typeof msg) "string")
  then (s, Throw (Error ("message must be a string, received "
                         +:+ typeof msg)))
  else if String.eqb (str_of name) ""
  then (s, Throw (Error "name is required"))
  else if truthy (obj_get (customValidators s) (str_of name))
  then (s, Throw (Error ("validator `" +:+ str_of name +:+ "` already exists")))
  else
    ({| customValidators :=
          obj_set (customValidators s) (str_of name)
                  (JsFun (ExtendWrapper fn));
        customErrorMessages :=
          obj_set (customErrorMessages s) (str_of name) msg |},
     Return JsUndefined).

(** ** The life of the registry *)

(** The registries the process can be in: the one the module is loaded
    with, and the one any call of [extend] leaves behind. *)
Inductive reachable : registry -> Prop :=
| reachable_initial : reachable initial
| reachable_extend s name fn msg :
    reachable s -> reachable (extend s name fn msg).1.

(** The registries a process in registry [s] can come to be in. *)
Inductive later (s : registry) : registry -> Prop :=
| later_now : later s s
| later_extend s' name fn msg :
    later s s' -> later s (extend s' name fn msg).1.

(** What [extend] keeps true of the registry: every rule it holds is one
    of its wrappers. *)
Definition registry_ok (s : registry) : Prop :=
  forall k v, customValidators s !! k = Some v ->
    exists fn, v = JsFun (ExtendWrapper fn).

(** ** What [validate] resolves *)

(** The arguments, the flag and the rule that [validate] resolves. *)
Definition resolved_args (options : gmap string jsval) : list jsval :=
  toArray (obj_get options "arguments").

Definition resolved_flag (options : gmap string jsval) : bool :=
  truthy (obj_get options "passIfEmpty").

Definition resolved_fn (h : host) (s : registry)
    (options : gmap string jsval) : jsval :=
  getValidatorFn h s (obj_get options "validator").

(** [validate] returns a descriptor whose validator closes over [rule],
    the resolved arguments and the flag. *)
Definition returns_descriptor_over (h : host) (s : registry)
    (options : gmap string jsval) (rule : jsval) : Prop :=
  exists d,
    validate h s options = Return d /\
    d !! "validator" =
      Some (createValidator rule (toArray (obj_get options "arguments"))
              (truthy (obj_get options "passIfEmpty"))).

(** ** The candidates for the message template *)

(** The candidates for the template, in the order of the source: the
    caller's message, the registry's message for the rule name, the
    table's message for the rule name, and the fallback. *)
Definition candidates (h : host) (s : registry)
    (options : gmap string jsval) : list jsval :=
  [obj_get options "message";
   obj_get (customErrorMessages s) (str_of (obj_get options "validator"));
   obj_get (defaultErrorMessages h) (str_of (obj_get options "validator"));
   JsStr "Error"].

(** The template as the specification words it: the first candidate that
    is a text and is not empty. *)
Definition first_non_empty_text (vals : list jsval) : jsval :=
  hd JsUndefined
     (List.filter (fun v => is_string v && negb (String.eqb (str_of v) ""))
                  vals).

(** ** Templates laid out in pieces *)

(** A template laid out as the scan reads it: stretches of text, and
    tokens [{ARGS[n]}] with [n] in decimal. *)
Inductive piece : Type :=
| Text (t : string)
| Token (n : N).

Definition render_piece (p : piece) : string :=
  match p with
  | Text t => t
  | Token n => token_text (decimal n)
  end.

Definition render (ps : list piece) : string :=
  fold_right (fun p acc => render_piece p +:+ acc) "" ps.

(** What a piece is to become: text stays, a token becomes its argument
    as text, or nothing when there is no such argument. *)
Definition fill (h : host) (args : list jsval) (p : piece)
  : outcome string :=
  match p with
  | Text t => Return t
  | Token n =>
      match args !! N.to_nat n with
      | Some v => to_string h v
      | None => Return ""
      end
  end.

(** The pieces filled from the left, the first throw ending it. *)
Definition fill_all (h : host) (args : list jsval) (ps : list piece)
  : outcome string :=
  fold_right (fun p acc => t ← fill h args p; rest ← acc; Return (t +:+ rest))
             (Return "") ps.

(** No opening brace occurs in [s]. *)
Fixpoint brace_free (s : string) : bool :=
  match s with
  | EmptyString => true
  | String c s' => negb (Ascii.eqb c "{") && brace_free s'
  end.

Fixpoint digits_only (s : string) : bool :=
  match s with
  | EmptyString => true
  | String c s' => is_digit c && digits_only s'
  end.

(** The pieces the interpolation theorem speaks of: text without an
    opening brace, and tokens whose argument, when there is one, is
    truthy. *)
Definition plain (args : list jsval) (p : piece) : Prop :=
  match p with
  | Text t => brace_free t = true
  | Token n => forall v, args !! N.to_nat n = Some v -> truthy v = true
  end.

(** Where the scan can be cut: before an opening brace, or at the end. *)
Definition opens_with_brace (s : string) : Prop :=
  match s with
  | EmptyString => True
  | String c _ => c = "{"%char
  end.

(** ** Two hosts to run the module on *)

Definition demo_host : host :=
  {| native := fun id _ args =>
       match args with
       | JsStr v :: _ => Return (JsBool (String.eqb v id))
       | _ => Return (JsBool false)
       end;
     fun_source := fun _ => "function () { [native code] }";
     number_source := fun _ => "1e+21";
     validatorjs := ∅;
     defaultErrorMessages := ∅ |}.

Definition library_host : host :=
  {| native := fun id _ _ => Return (JsStr id);
     fun_source := fun _ => "function () { [native code] }";
     number_source := fun _ => "1e+21";
     validatorjs :=
       <["isEmail" := JsFun (Native "validator.isEmail")]>
         (<["version" := JsStr "10.11.0"]> ∅);
     defaultErrorMessages :=
       <["isEmail" := JsStr "Not a valid email"]> ∅ |}.

(** ** Registries and options to run the module on *)

(** After [extend('isFoo', foo, '{ARGS[0]} is not foo')] on the registry
    the module is loaded with. *)
Definition foo_registry : registry :=
  (extend initial (JsStr "isFoo") (JsFun (Native "foo"))
          (JsStr "{ARGS[0]} is not foo")).1.

(** After a further [extend('isBar', bar)]. *)
Definition foo_bar_registry : registry :=
  (extend foo_registry (JsStr "isBar") (JsFun (Native "bar")) JsUndefined).1.

(** After [extend('isEmail', mine)], a name the library of [library_host]
    has too. *)
Definition shadowing_registry : registry :=
  (extend initial (JsStr "isEmail") (JsFun (Native "mine")) JsUndefined).1.

(** [{validator: 'isFoo', arguments: 7}] *)
Definition foo_options : gmap string jsval :=
  <["validator" := JsStr "isFoo"]> (<["arguments" := JsNum 7]> ∅).

(** [JSON.parse('{"validator": "isEmail", "foo": "bar", "__proto__": 5}')] *)
Definition proto_options : gmap string jsval :=
  <["validator" := JsStr "isEmail"]>
    (<["foo" := JsStr "bar"]> (<["__proto__" := JsNum 5]> ∅)).

(** [{validator: 'isEmail', message: ''}] *)
Definition empty_message_options : gmap string jsval :=
  <["validator" := JsStr "isEmail"]> (<["message" := JsStr ""]> ∅).

(** [{validator: 'isEmail', arguments: ['{ARGS[1]}', 'x'],
      message: 'Got {ARGS[0]}'}] *)
Definition token_argument_options : gmap string jsval :=
  <["validator" := JsStr "isEmail"]>
    (<["arguments" := JsArr [JsStr "{ARGS[1]}"; JsStr "x"]]>
       (<["message" := JsStr "Got {ARGS[0]}"]> ∅)).

(** ['Name should be between {ARGS[0]} and {ARGS[1]} characters{ARGS[2]}'] *)
Definition length_template : list piece :=
  [Text "Name should be between "; Token 0; Text " and "; Token 1;
   Text " characters"; Token 2].

(** Options whose argument cannot be coerced to text: an object whose own
    [toString] is no function and that has no own [valueOf]. *)
Definition unprintable : jsval := JsObj (<["toString" := JsNum 1]> ∅).

Definition unprintable_options : gmap string jsval :=
  <["validator" := JsStr "isEmail"]>
    (<["message" := JsStr "{ARGS[0]}"]>
       (<["arguments" := JsArr [unprintable]]> ∅)).

Definition unprintable_function_options : gmap string jsval :=
  <["validator" := JsFun (Native "mine")]>
    (<["message" := JsStr "{ARGS[0]}"]>
       (<["arguments" := JsArr [unprintable]]> ∅)).

Definition unprintable_default_options : gmap string jsval :=
  <["validator" := JsFun (Native "mine")]>
    (<["arguments" := JsArr [unprintable]]> ∅).

(** * Properties *)

(** ** Property reads and writes *)

Lemma obj_get_own (obj : gmap string jsval) key v :
  obj !! key = Some v -> obj_get obj key = v.
Proof. intros Hk. unfold obj_get. by rewrite Hk. Qed.

Lemma obj_get_empty key : obj_get ∅ key = default JsUndefined (inherited key).
Proof. unfold obj_get. by rewrite lookup_empty. Qed.

Lemma obj_set_lookup (obj : gmap string jsval) key v k :
  obj_set obj key v !! k =
  if decide (k = key /\ (k = "__proto__" -> is_Some (obj !! k)))
  then Some v else obj !! k.
Proof.
  unfold obj_set. destruct (decide (key = "__proto__" /\ obj !! key = None))
    as [[-> Hnone]|Hset].
  - case_decide as Hc; [|done]. destruct Hc as [-> Hs].
    rewrite Hnone in Hs. by destruct (Hs eq_refl).
  - rewrite lookup_insert. case_decide as Hk.
    + subst k. case_decide as Hc; [done|]. exfalso. apply Hc. split; [done|].
      intros ->. destruct (obj !! "__proto__") eqn:E; [eauto|]. by destruct Hset.
    + case_decide as Hc; [|done]. by destruct Hc as [-> _].
Qed.

(** Assigning, key by key, the properties that [src] has under the keys of
    [l], as [omit]'s [reduce] and [Object.assign] both do. *)
Lemma foldl_obj_set_lookup (src : gmap string jsval) (l : list string) :
  forall (acc : gmap string jsval) (k : string),
    foldl (fun acc key => obj_set acc key (obj_get src key)) acc l !! k =
    if decide (k ∈ l /\ (k = "__proto__" -> is_Some (acc !! k)))
    then Some (obj_get src k) else acc !! k.
Proof.
  induction l as [|x l IH]; intros acc k; cbn [foldl].
  - case_decide as Hc; [|done]. destruct Hc as [Hc _]. by apply elem_of_nil in Hc.
  - rewrite IH, !obj_set_lookup.
    repeat case_decide; destruct_and?; simplify_eq; try done;
      exfalso; set_unfold; tauto.
Qed.

Lemma elem_of_object_keys (obj : gmap string jsval) k :
  k ∈ object_keys obj <-> is_Some (obj !! k).
Proof.
  unfold object_keys. rewrite list_elem_of_fmap. split.
  - intros [[k' v] [-> Hin]]. apply elem_of_map_to_list in Hin. eauto.
  - intros [v Hv]. exists (k, v). split; [done|]. by apply elem_of_map_to_list.
Qed.

(** [omit] keeps exactly the own properties whose key is not listed, but
    for [__proto__], which the assignment in its [reduce] cannot create. *)
Lemma omit_lookup (obj : gmap string jsval) (keys : list string) k :
  omit obj keys !! k =
  if decide (k ∈ keys \/ k = "__proto__") then None else obj !! k.
Proof.
  unfold omit. rewrite foldl_obj_set_lookup, lookup_empty.
  case_decide as Hc.
  - destruct Hc as [Hin Hp]. apply list_elem_of_filter in Hin as [Hnk Hin].
    apply elem_of_object_keys in Hin as [v Hv].
    rewrite decide_False.
    + by rewrite (obj_get_own _ _ _ Hv).
    + intros [? | ->]; [done|]. destruct (Hp eq_refl) as [? ?]; done.
  - case_decide as Hd; [done|]. destruct (obj !! k) as [v|] eqn:Hv; [|done].
    exfalso. apply Hc. split.
    + apply list_elem_of_filter. split; [tauto|]. apply elem_of_object_keys; eauto.
    + intros ->. tauto.
Qed.

Lemma object_assign_lookup (target source : gmap string jsval) k :
  object_assign target source !! k =
  if decide (is_Some (source !! k) /\ (k = "__proto__" -> is_Some (target !! k)))
  then source !! k else target !! k.
Proof.
  unfold object_assign. rewrite foldl_obj_set_lookup.
  case_decide as Hc.
  - destruct Hc as [Hin Hp]. apply elem_of_object_keys in Hin as Hs.
    rewrite decide_True by done. destruct Hs as [v Hv].
    by rewrite (obj_get_own _ _ _ Hv).
  - rewrite decide_False; [done|]. intros [Hs Hp]. apply Hc. split; [|done].
    by apply elem_of_object_keys.
Qed.

(** ** The descriptor that [validate] builds *)

Lemma findFirstString_cons v vals :
  findFirstString (v :: vals) =
  if is_string v then v else findFirstString vals.
Proof. unfold findFirstString. simpl. by destruct (is_string v). Qed.

Lemma messageStr_string h s options :
  exists m, messageStr h s options = JsStr m.
Proof.
  unfold messageStr. rewrite !findFirstString_cons.
  repeat match goal with
         | |- context [is_string ?v] => destruct v; simpl; eauto
         end.
Qed.

(** Passing the options on: what [Object.assign] copies from the result of
    [omit]. *)
Lemma assign_omit_lookup (target obj : gmap string jsval) keys k :
  object_assign target (omit obj keys) !! k =
  if decide (k ∈ keys \/ k = "__proto__") then target !! k
  else match obj !! k with
       | Some v => Some v
       | None => target !! k
       end.
Proof.
  rewrite object_assign_lookup, omit_lookup.
  destruct (decide (k ∈ keys \/ k = "__proto__")) as [Hk|Hk].
  - rewrite decide_False; [done|]. intros [[? ?] _]. done.
  - destruct (obj !! k) as [v|] eqn:E.
    + rewrite decide_True; [done|]. split; [eauto|]. intros ->. tauto.
    + rewrite decide_False; [done|]. intros [[? ?] _]. done.
Qed.

Lemma interpolate_text h m args :
  interpolateMessageWithArgs h (JsStr m) args =
  (t ← replace_tokens (replacer h args) 0 m; Return (JsStr t)).
Proof. reflexivity. Qed.

Lemma validate_descriptor h s options d :
  validate h s options = Return d ->
  exists m,
    messageStr h s options = JsStr m /\
    d !! "validator" =
      Some (JsFun (ValidatorClosure (resolved_fn h s options)
                     (resolved_args options) (resolved_flag options))) /\
    (exists t,
       replace_tokens (replacer h (resolved_args options)) 0 m = Return t /\
       d !! "message" = Some (JsStr t)) /\
    forall k, k <> "validator" -> k <> "message" ->
      d !! k = if decide (k ∈ ["passIfEmpty"; "arguments"; "__proto__"])
               then None else options !! k.
Proof.
  unfold validate. intros Hv.
  destruct (is_undef (obj_get options "validator")); [done|].
  destruct (negb _ && negb _); [done|].
  destruct (is_undef (getValidatorFn _ _ _)); [done|].
  destruct (messageStr_string h s options) as [m Hm]. exists m.
  rewrite Hm, interpolate_text in Hv. fold (resolved_args options) in Hv.
  destruct (replace_tokens (replacer h (resolved_args options)) 0 m)
    as [t|e]; [|done].
  cbn in Hv. injection Hv as <-.
  split; [done|]. split; [|split].
  - rewrite assign_omit_lookup. rewrite decide_True by (left; set_solver). done.
  - exists t. split; [done|].
    rewrite assign_omit_lookup. rewrite decide_True by (left; set_solver). done.
  - intros k Hk1 Hk2. rewrite assign_omit_lookup.
    rewrite lookup_insert_ne, lookup_insert_ne, lookup_empty by done.
    repeat case_decide; try done; set_unfold.
    + exfalso. intuition congruence.
    + exfalso. intuition congruence.
    + by destruct (options !! k).
Qed.

(** ** The validator at run time *)

Lemma apply_function h g this args :
  apply h (JsFun g) this args =
  (Invoke g this args :: (call h g this args).1, (call h g this args).2).
Proof. unfold apply, apply_with. by destruct (call h g this args). Qed.

Lemma call_validator_no_argument h fn args flag this :
  call h (ValidatorClosure fn args flag) this [] = ([], Return (JsBool true)).
Proof. cbn. by rewrite orb_true_r. Qed.

Lemma call_validator_undefined h fn args flag this val more :
  is_undef val = true ->
  call h (ValidatorClosure fn args flag) this (val :: more)
  = ([], Return (JsBool true)).
Proof. intros Hu. cbn. by rewrite Hu, orb_true_r. Qed.

Lemma call_validator_pass_empty h fn args this val more :
  is_empty val || is_nil val = true ->
  call h (ValidatorClosure fn args true) this (val :: more)
  = ([], Return (JsBool true)).
Proof. intros He. cbn. by rewrite He. Qed.

Lemma call_validator_rule h fn args flag this val more :
  is_undef val = false ->
  flag && (is_empty val || is_nil val) = false ->
  call h (ValidatorClosure fn args flag) this (val :: more)
  = apply h fn this (val :: args).
Proof. intros Hu He. cbn. by rewrite Hu, He. Qed.

Lemma toArray_undefined : toArray JsUndefined = [].
Proof. reflexivity. Qed.

Lemma toArray_array elems : toArray (JsArr elems) = elems.
Proof. reflexivity. Qed.

Lemma toArray_single v :
  is_undef v = false -> is_array v = false -> toArray v = [v].
Proof. by destruct v. Qed.

(** C1.  The validator of the descriptor that [validate] returns closes
    over the resolved rule [fn], the resolved arguments [args] (no
    arguments when [arguments] is undefined, the elements when it is an
    array, the single value otherwise) and the flag.  Called without a
    value or with [undefined] it answers [true] and calls nothing; called
    with an empty or null value while the flag is set it answers [true] and
    calls nothing; in every other case its run is that of
    [fn.apply(this, [val].concat(args))]. *)
Theorem validator_runs_rule_unless_short_circuited
    (h : host) (s : registry) (options d : gmap string jsval) :
  validate h s options = Return d ->
  let fn := getValidatorFn h s (obj_get options "validator") in
  let args := toArray (obj_get options "arguments") in
  let passIfEmpty := truthy (obj_get options "passIfEmpty") in
  (obj_get options "arguments" = JsUndefined -> args = []) /\
  (forall elems, obj_get options "arguments" = JsArr elems -> args = elems) /\
  (is_undef (obj_get options "arguments") = false ->
   is_array (obj_get options "arguments") = false ->
   args = [obj_get options "arguments"]) /\
  exists validator,
    d !! "validator" = Some (JsFun validator) /\
    forall this : jsval,
      call h validator this [] = ([], Return (JsBool true)) /\
      forall (val : jsval) (more : list jsval),
        (is_undef val = true ->
         call h validator this (val :: more) = ([], Return (JsBool true))) /\
        (passIfEmpty = true -> is_empty val || is_nil val = true ->
         call h validator this (val :: more) = ([], Return (JsBool true))) /\
        (is_undef val = false ->
         passIfEmpty && (is_empty val || is_nil val) = false ->
         call h validator this (val :: more) = apply h fn this (val :: args)).
Proof.
  intros Hv fn args passIfEmpty. subst fn args passIfEmpty.
  split; [intros Ha; by rewrite Ha|].
  split; [intros elems Ha; by rewrite Ha|].
  split; [apply toArray_single|].
  destruct (validate_descriptor _ _ _ _ Hv) as (m & _ & Hval & _).
  eexists. split; [exact Hval|]. intros this.
  split; [apply call_validator_no_argument|]. intros val more.
  split; [apply call_validator_undefined|]. split.
  - intros Hf He. unfold resolved_flag. rewrite Hf.
    by apply call_validator_pass_empty.
  - apply call_validator_rule.
Qed.

Lemma validator_runs_rule_unless_short_circuited_witness :
  exists d,
    validate demo_host initial
      (<["validator" := JsFun (Native "foo")]> (<["arguments" := JsNum 4]> ∅))
    = Return d /\
    exists validator,
      d !! "validator" = Some (JsFun validator) /\
      call demo_host validator JsNull [JsStr "foo"] =
      ([Invoke (Native "foo") JsNull [JsStr "foo"; JsNum 4]],
       Return (JsBool true)).
Proof.
  destruct (validate demo_host initial
              (<["validator" := JsFun (Native "foo")]>
                 (<["arguments" := JsNum 4]> ∅))) as [d|e] eqn:Hv;
    [|by vm_compute in Hv].
  exists d. split; [reflexivity|].
  destruct (validator_runs_rule_unless_short_circuited _ _ _ _ Hv)
    as (_ & _ & _ & validator & Hd & Hrun).
  exists validator. split; [exact Hd|].
  destruct (Hrun JsNull) as [_ Hcall].
  destruct (Hcall (JsStr "foo") []) as (_ & _ & Hrule).
  rewrite Hrule by (vm_compute; reflexivity). vm_compute. reflexivity.
Defined.

(** C9.  Without [passIfEmpty] a null value is not short-circuited: the
    rule is invoked with [null] first and the arguments after it, and its
    result is the validator's; an undefined value still answers [true]
    without a call.  With [passIfEmpty], null and empty values answer
    [true] without a call; without it, every defined value reaches the
    rule. *)
Theorem null_reaches_rule_without_passIfEmpty
    (h : host) (g : func) (args : list jsval) (this : jsval)
    (strict lenient : func) :
  createValidator (JsFun g) args false = JsFun strict ->
  createValidator (JsFun g) args true = JsFun lenient ->
  call h strict this [JsNull]
    = (Invoke g this (JsNull :: args) :: (call h g this (JsNull :: args)).1,
       (call h g this (JsNull :: args)).2) /\
  call h strict this [JsUndefined] = ([], Return (JsBool true)) /\
  call h lenient this [JsNull] = ([], Return (JsBool true)) /\
  (forall val, is_empty val = true ->
     call h lenient this [val] = ([], Return (JsBool true))) /\
  (forall val, is_undef val = false ->
     call h strict this [val]
     = (Invoke g this (val :: args) :: (call h g this (val :: args)).1,
        (call h g this (val :: args)).2)).
Proof.
  intros [= <-] [= <-].
  split; [|split; [|split; [|split]]].
  - rewrite call_validator_rule by done. apply apply_function.
  - by apply call_validator_undefined.
  - by apply call_validator_pass_empty.
  - intros val He. apply call_validator_pass_empty. by rewrite He.
  - intros val Hu. rewrite call_validator_rule by done. apply apply_function.
Qed.

Lemma null_reaches_rule_without_passIfEmpty_witness :
  call demo_host (ValidatorClosure (JsFun (Native "foo")) [] true) JsNull
       [JsStr ""]
  = ([], Return (JsBool true)) /\
  call demo_host (ValidatorClosure (JsFun (Native "foo")) [] false) JsNull
       [JsStr ""]
  = ([Invoke (Native "foo") JsNull [JsStr ""]], Return (JsBool false)) /\
  call demo_host (ValidatorClosure (JsFun (Native "foo")) [] false) JsNull
       [JsNull]
  = ([Invoke (Native "foo") JsNull [JsNull]], Return (JsBool false)).
Proof.
  destruct (null_reaches_rule_without_passIfEmpty demo_host (Native "foo") []
              JsNull _ _ eq_refl eq_refl)
    as (Hnull & _ & _ & Hempty & Hdefined).
  split; [|split].
  - apply (Hempty (JsStr "")). reflexivity.
  - apply (Hdefined (JsStr "")). reflexivity.
  - exact Hnull.
Defined.

(** ** The registry *)

Lemma typeof_string v : typeof v = "string" <-> exists n, v = JsStr n.
Proof.
  split; [|by intros [n ->]]. destruct v; try discriminate. eauto.
Qed.

Lemma typeof_function v : typeof v = "function" <-> exists f, v = JsFun f.
Proof.
  split; [|by intros [f ->]]. destruct v; try discriminate. eauto.
Qed.

Lemma inherited_truthy key v : inherited key = Some v -> truthy v = true.
Proof.
  unfold inherited. case_decide; [by intros [= <-]|].
  intros Hl. apply elem_of_list_to_map_2 in Hl.
  cbn in Hl. set_unfold.
  repeat (destruct Hl as [Hl'|Hl]; [by simplify_eq|]). done.
Qed.

(** A name that [extend] accepts is free, also of inherited members. *)
Lemma extend_Return s name fn msg s' r :
  extend s name fn msg = (s', Return r) ->
  exists n,
    name = JsStr n /\ n <> "" /\ typeof fn = "function" /\
    (exists m, (if is_undef msg then JsStr "Error" else msg) = JsStr m) /\
    truthy (obj_get (customValidators s) n) = false /\
    r = JsUndefined /\
    s' = {| customValidators :=
              obj_set (customValidators s) n (JsFun (ExtendWrapper fn));
            customErrorMessages :=
              obj_set (customErrorMessages s) n
                      (if is_undef msg then JsStr "Error" else msg) |}.
Proof.
  unfold extend.
  destruct (String.eqb_spec (typeof name) "string") as [Hn|]; [|done].
  destruct (String.eqb_spec (typeof fn) "function") as [Hf|]; [|done].
  destruct (String.eqb_spec
              (typeof (if is_undef msg then JsStr "Error" else msg)) "string")
    as [Hm|]; [|done].
  apply typeof_string in Hn as [n ->]. apply typeof_string in Hm.
  cbn [negb str_of].
  destruct (String.eqb_spec n "") as [|Hne]; [done|].
  destruct (truthy (obj_get (customValidators s) n)) eqn:Ht; [done|].
  intros [= <- <-]. exists n. repeat split; done.
Qed.

Lemma extend_Throw s name fn msg s' e :
  extend s name fn msg = (s', Throw e) -> s' = s.
Proof.
  unfold extend.
  repeat match goal with
         | |- context [if ?b then _ else _] => destruct b
         end; by intros [= <-].
Qed.

(** On a registry that is ok, a falsy read means a name that is neither
    registered nor inherited. *)
Lemma falsy_read_free s n :
  registry_ok s ->
  truthy (obj_get (customValidators s) n) = false ->
  customValidators s !! n = None /\ inherited n = None.
Proof.
  intros Hok. unfold obj_get.
  destruct (customValidators s !! n) as [v|] eqn:Hv.
  - destruct (Hok _ _ Hv) as [fn ->]. done.
  - destruct (inherited n) as [v|] eqn:Hi; [|done].
    cbn. by rewrite (inherited_truthy _ _ Hi).
Qed.

Lemma extend_ok s name fn msg :
  registry_ok s -> registry_ok (extend s name fn msg).1.
Proof.
  intros Hok. destruct (extend s name fn msg) as [s' [r|e]] eqn:He.
  - apply extend_Return in He as (n & -> & _ & _ & _ & Hfree & _ & ->).
    destruct (falsy_read_free _ _ Hok Hfree) as [_ Hi].
    intros k v. cbn. rewrite obj_set_lookup. case_decide; [|apply Hok].
    intros [= <-]. eauto.
  - apply extend_Throw in He as ->. exact Hok.
Qed.

Lemma reachable_ok s : reachable s -> registry_ok s.
Proof.
  induction 1 as [|s name fn msg _ IH]; [|by apply extend_ok].
  intros k v. cbn. by rewrite lookup_empty.
Qed.

(** C5.  [extend] checks, in this order, that the name is a text, that
    the rule is callable, that the message (['Error'] when it is left out)
    is a text, that the name is not empty and that the name is not taken,
    each failure throwing its own error; the fifth check rejects every
    registered name of a reachable registry.  Whatever it throws, the two
    tables are what they were before the call. *)
Theorem extend_checks_in_order_and_leaves_registry
    (s : registry) (name fn msg : jsval) :
  let msg' := if is_undef msg then JsStr "Error" else msg in
  (typeof name <> "string" ->
   extend s name fn msg =
   (s, Throw (Error ("name must be a string, received " +:+ typeof name)))) /\
  (typeof name = "string" -> typeof fn <> "function" ->
   extend s name fn msg =
   (s, Throw (Error ("validator must be a function, received "
                     +:+ typeof fn)))) /\
  (typeof name = "string" -> typeof fn = "function" ->
   typeof msg' <> "string" ->
   extend s name fn msg =
   (s, Throw (Error ("message must be a string, received "
                     +:+ typeof msg')))) /\
  (typeof fn = "function" -> typeof msg' = "string" -> name = JsStr "" ->
   extend s name fn msg = (s, Throw (Error "name is required"))) /\
  (forall n, typeof fn = "function" -> typeof msg' = "string" ->
   name = JsStr n -> n <> "" ->
   reachable s -> is_Some (customValidators s !! n) ->
   extend s name fn msg =
   (s, Throw (Error ("validator `" +:+ n +:+ "` already exists")))) /\
  (forall s' e, extend s name fn msg = (s', Throw e) ->
   customValidators s' = customValidators s /\
   customErrorMessages s' = customErrorMessages s).
Proof.
  intros msg'. subst msg'. unfold extend.
  split; [|split; [|split; [|split; [|split]]]].
  - intros Hn. by destruct (String.eqb_spec (typeof name) "string").
  - intros -> Hf. cbn. by destruct (String.eqb_spec (typeof fn) "function").
  - intros -> -> Hm. cbn.
    by destruct (String.eqb_spec
                   (typeof (if is_undef msg then JsStr "Error" else msg))
                   "string").
  - intros -> -> ->. reflexivity.
  - intros n -> -> -> Hne Hr [v Hv]. cbn.
    destruct (String.eqb_spec n ""); [done|].
    rewrite (obj_get_own _ _ _ Hv).
    destruct (reachable_ok _ Hr _ _ Hv) as [f ->]. reflexivity.
  - intros s' e He. by rewrite (extend_Throw _ _ _ _ _ _ He).
Qed.

Lemma extend_checks_in_order_and_leaves_registry_witness :
  customValidators foo_registry !! "isFoo"
    = Some (JsFun (ExtendWrapper (JsFun (Native "foo")))) /\
  extend foo_registry (JsStr "isFoo") (JsFun (Native "bar")) (JsStr "not foo")
    = (foo_registry, Throw (Error "validator `isFoo` already exists")) /\
  extend foo_registry (JsStr "") (JsFun (Native "bar")) JsUndefined
    = (foo_registry, Throw (Error "name is required")) /\
  extend foo_registry (JsStr "x") (JsStr "notAFunction") JsUndefined
    = (foo_registry,
       Throw (Error "validator must be a function, received string")).
Proof.
  split; [vm_compute; reflexivity|].
  split; [|split].
  - destruct (extend_checks_in_order_and_leaves_registry foo_registry
                (JsStr "isFoo")
                (JsFun (Native "bar")) (JsStr "not foo"))
      as (_ & _ & _ & _ & Htaken & _).
    apply (Htaken "isFoo"); try reflexivity.
    + discriminate.
    + apply reachable_extend, reachable_initial.
    + vm_compute. eexists. reflexivity.
  - destruct (extend_checks_in_order_and_leaves_registry foo_registry
                (JsStr "")
                (JsFun (Native "bar")) JsUndefined)
      as (_ & _ & _ & Hempty & _).
    apply Hempty; reflexivity.
  - destruct (extend_checks_in_order_and_leaves_registry foo_registry
                (JsStr "x")
                (JsStr "notAFunction") JsUndefined)
      as (_ & Hfn & _).
    apply Hfn; [reflexivity|discriminate].
Defined.

(** C10.  A name that [Object.prototype] has a member for is refused as
    already existing on a registry that never held it, the freshly loaded
    one included: the check reads [customValidators[name]], which finds the
    inherited member, and every such member is truthy.  ['toString'],
    ['valueOf'], ['constructor'] and ['hasOwnProperty'] are such names. *)
Theorem extend_refuses_inherited_names
    (s : registry) (name : string) (fn msg : jsval) :
  Forall (fun n => is_Some (inherited n))
         ["toString"; "valueOf"; "constructor"; "hasOwnProperty"] /\
  customValidators initial !! name = None /\
  (is_Some (inherited name) ->
   customValidators s !! name = None ->
   typeof fn = "function" ->
   typeof (if is_undef msg then JsStr "Error" else msg) = "string" ->
   extend s (JsStr name) fn msg =
   (s, Throw (Error ("validator `" +:+ name +:+ "` already exists")))).
Proof.
  split; [repeat constructor; vm_compute; eauto|].
  split; [apply lookup_empty|].
  intros [v Hi] Hfree Hf Hm. unfold extend. rewrite Hf, Hm. cbn.
  destruct (String.eqb_spec name "") as [->|_]; [done|].
  unfold obj_get. rewrite Hfree, Hi. cbn.
  by rewrite (inherited_truthy _ _ Hi).
Qed.

Lemma extend_refuses_inherited_names_witness :
  extend initial (JsStr "toString") (JsFun (Native "foo")) JsUndefined =
  (initial, Throw (Error "validator `toString` already exists")).
Proof.
  destruct (extend_refuses_inherited_names initial "toString"
              (JsFun (Native "foo")) JsUndefined) as (_ & _ & Hrefused).
  apply Hrefused; try reflexivity. vm_compute. eauto.
Defined.

(** ** Resolving a rule *)

(** Past the three checks, [validate] ends as the interpolation of the
    template ends. *)
Lemma validate_checked h s options :
  is_undef (obj_get options "validator") = false ->
  is_function (obj_get options "validator")
  || is_string (obj_get options "validator") = true ->
  is_undef (resolved_fn h s options) = false ->
  validate h s options =
  (message ← interpolateMessageWithArgs h (messageStr h s options)
              (resolved_args options);
   Return (object_assign
             (<["validator" := createValidator (resolved_fn h s options)
                                 (resolved_args options)
                                 (resolved_flag options)]>
                (<["message" := message]> ∅))
             (omit options
                   ["passIfEmpty"; "message"; "validator"; "arguments"]))).
Proof.
  unfold validate, resolved_fn. intros -> Hk ->.
  by destruct (is_function _), (is_string _).
Qed.

Lemma array_get_cases (args : list jsval) key :
  array_get args key = JsUndefined \/ array_get args key ∈ args.
Proof.
  unfold array_get. destruct (NilZero.uint_of_string key) as [u|]; [|by left].
  destruct (String.eqb _ key); [|by left].
  destruct (args !! N.to_nat (N.of_uint u)) as [v|] eqn:Hv; [|by left].
  right. by apply list_elem_of_lookup_2 in Hv.
Qed.

(** Arguments that all have a text keep the replacer from throwing. *)
Lemma replacer_returns h args ds :
  forallb (coerces h) args = true ->
  exists t, replacer h args ds = Return t.
Proof.
  intros Hall. unfold replacer, js_or.
  destruct (array_get_cases args ds) as [->|Hin]; [cbn; eauto|].
  destruct (truthy (array_get args ds)); [|cbn; eauto].
  rewrite forallb_forall in Hall. apply list_elem_of_In in Hin.
  specialize (Hall _ Hin). unfold coerces in Hall.
  destruct (to_string h (array_get args ds)); [eauto|done].
Qed.

Lemma replace_tokens_returns r :
  (forall ds, exists t, r ds = Return t) ->
  forall s skip, exists t, replace_tokens r skip s = Return t.
Proof.
  intros Hr. induction s as [|c s IH]; intros skip; cbn [replace_tokens].
  - eauto.
  - destruct skip as [|skip]; [|apply IH].
    destruct (token_at (String c s)) as [ds|].
    + destruct (Hr ds) as [t ->].
      destruct (IH (String.length (token_text ds) - 1)) as [rest ->].
      cbn. eauto.
    + destruct (IH 0) as [rest ->]. cbn. eauto.
Qed.

Lemma interpolate_returns h args m :
  forallb (coerces h) args = true ->
  exists t, replace_tokens (replacer h args) 0 m = Return t /\
            interpolateMessageWithArgs h (JsStr m) args = Return (JsStr t).
Proof.
  intros Hall. rewrite interpolate_text.
  destruct (replace_tokens_returns (replacer h args)
              (fun ds => replacer_returns h args ds Hall) m 0) as [t ->].
  exists t. by split.
Qed.

Lemma validate_resolved h s options :
  is_undef (obj_get options "validator") = false ->
  is_function (obj_get options "validator")
  || is_string (obj_get options "validator") = true ->
  is_undef (resolved_fn h s options) = false ->
  forallb (coerces h) (resolved_args options) = true ->
  exists d, validate h s options = Return d.
Proof.
  intros Hu Hk Hf Hall. rewrite validate_checked by done.
  destruct (messageStr_string h s options) as [m ->].
  destruct (interpolate_returns h _ m Hall) as (t & _ & ->). cbn. eauto.
Qed.

Lemma getValidatorFn_name h s n :
  n <> "" ->
  getValidatorFn h s (JsStr n) =
  js_or (js_or (obj_get (validatorjs h) n) (obj_get (customValidators s) n))
        JsUndefined.
Proof.
  intros Hn. unfold getValidatorFn. cbn.
  destruct n; [done|]. reflexivity.
Qed.

Lemma truthy_defined v : truthy v = true -> is_undef v = false.
Proof. by destruct v. Qed.

Lemma validate_over h s options :
  is_undef (obj_get options "validator") = false ->
  is_function (obj_get options "validator")
  || is_string (obj_get options "validator") = true ->
  is_undef (resolved_fn h s options) = false ->
  forallb (coerces h) (resolved_args options) = true ->
  returns_descriptor_over h s options (resolved_fn h s options).
Proof.
  intros Hu Hk Hf Hall.
  destruct (validate_resolved h s options Hu Hk Hf Hall) as [d Hd].
  exists d. split; [exact Hd|].
  by destruct (validate_descriptor _ _ _ _ Hd) as (m & _ & Hval & _).
Qed.

(** C8, with its second half at the names that neither source holds.
    [validate] asks the library object first and takes the function found
    there whatever the registry holds under the name; it asks the registry
    object second and takes the rule registered there for a name the
    library object does not answer.  For a name that neither object holds
    it throws the error that names the rule only when [Object.prototype]
    has no member of that name; when it has one, [validate] returns a
    descriptor over that member. *)
Theorem library_is_consulted_before_registry
    (h : host) (s : registry) (options : gmap string jsval) (name : string) :
  obj_get options "validator" = JsStr name ->
  name <> "" ->
  forallb (coerces h) (toArray (obj_get options "arguments")) = true ->
  (forall lib_fn,
     obj_get (validatorjs h) name = JsFun lib_fn ->
     getValidatorFn h s (JsStr name) = JsFun lib_fn /\
     returns_descriptor_over h s options (JsFun lib_fn)) /\
  (forall rule,
     validatorjs h !! name = None -> inherited name = None ->
     customValidators s !! name = Some rule -> truthy rule = true ->
     getValidatorFn h s (JsStr name) = rule /\
     returns_descriptor_over h s options rule) /\
  (validatorjs h !! name = None -> customValidators s !! name = None ->
   inherited name = None ->
   validate h s options =
   Throw (Error ("validator `" +:+ name +:+
                 "` does not exist in validator.js or as a custom validator"))) /\
  (forall member,
     validatorjs h !! name = None -> customValidators s !! name = None ->
     inherited name = Some member ->
     getValidatorFn h s (JsStr name) = member /\
     returns_descriptor_over h s options member).
Proof.
  intros Hv Hn Hall.
  assert (Hover : forall rule,
            getValidatorFn h s (JsStr name) = rule -> truthy rule = true ->
            returns_descriptor_over h s options rule).
  { intros rule Hfn Ht.
    assert (resolved_fn h s options = rule) as Hr
      by (unfold resolved_fn; by rewrite Hv).
    rewrite <- Hr. apply validate_over; rewrite ?Hr, ?Hv; try done.
    by apply truthy_defined. }
  split; [|split; [|split]].
  - intros lib_fn Hlib.
    assert (Hfn : getValidatorFn h s (JsStr name) = JsFun lib_fn).
    { rewrite getValidatorFn_name by done. by rewrite Hlib. }
    split; [exact Hfn|]. by apply Hover.
  - intros rule Hlib Hinh Hreg Ht.
    assert (Hfn : getValidatorFn h s (JsStr name) = rule).
    { rewrite getValidatorFn_name by done. unfold js_or, obj_get.
      rewrite Hlib, Hinh, Hreg. cbn. by rewrite Ht. }
    split; [exact Hfn|]. by apply Hover.
  - intros Hlib Hreg Hinh. unfold validate. rewrite Hv. cbn -[getValidatorFn].
    rewrite getValidatorFn_name by done. unfold js_or, obj_get.
    by rewrite Hlib, Hreg, Hinh.
  - intros member Hlib Hreg Hinh.
    pose proof (inherited_truthy _ _ Hinh) as Ht.
    assert (Hfn : getValidatorFn h s (JsStr name) = member).
    { rewrite getValidatorFn_name by done. unfold js_or, obj_get.
      rewrite Hlib, Hinh. cbn. rewrite Ht. cbv iota. by rewrite Ht. }
    split; [exact Hfn|]. by apply Hover.
Qed.

Lemma library_is_consulted_before_registry_witness :
  customValidators shadowing_registry !! "isEmail"
    = Some (JsFun (ExtendWrapper (JsFun (Native "mine")))) /\
  getValidatorFn library_host shadowing_registry (JsStr "isEmail")
    = JsFun (Native "validator.isEmail") /\
  getValidatorFn library_host foo_registry (JsStr "isFoo")
    = JsFun (ExtendWrapper (JsFun (Native "foo"))) /\
  validate library_host shadowing_registry
    (<["validator" := JsStr "isMissing"]> ∅) =
  Throw (Error "validator `isMissing` does not exist in validator.js or as a custom validator") /\
  returns_descriptor_over library_host shadowing_registry
    (<["validator" := JsStr "valueOf"]> ∅)
    (JsFun (Native "Object.prototype.valueOf")).
Proof.
  split; [vm_compute; reflexivity|]. split; [|split; [|split]].
  - destruct (library_is_consulted_before_registry library_host
                shadowing_registry
                (<["validator" := JsStr "isEmail"]> ∅) "isEmail")
      as [Hlib _]; [reflexivity|discriminate|reflexivity|].
    destruct (Hlib (Native "validator.isEmail")) as [Hfn _];
      [vm_compute; reflexivity|exact Hfn].
  - destruct (library_is_consulted_before_registry library_host
                foo_registry
                (<["validator" := JsStr "isFoo"]> ∅) "isFoo")
      as (_ & Hreg & _); [reflexivity|discriminate|reflexivity|].
    destruct (Hreg (JsFun (ExtendWrapper (JsFun (Native "foo")))))
      as [Hfn _]; [vm_compute; reflexivity..|exact Hfn].
  - destruct (library_is_consulted_before_registry library_host
                shadowing_registry
                (<["validator" := JsStr "isMissing"]> ∅) "isMissing")
      as (_ & _ & Hnone & _); [reflexivity|discriminate|reflexivity|].
    apply Hnone; vm_compute; reflexivity.
  - destruct (library_is_consulted_before_registry library_host
                shadowing_registry
                (<["validator" := JsStr "valueOf"]> ∅) "valueOf")
      as (_ & _ & _ & Hmember); [reflexivity|discriminate|reflexivity|].
    destruct (Hmember (JsFun (Native "Object.prototype.valueOf")))
      as [_ Hover]; [vm_compute; reflexivity..|exact Hover].
Defined.

(** ** Registered rules stay registered *)

Lemma wrapper_read (obj : gmap string jsval) n fn :
  obj !! n = Some (JsFun (ExtendWrapper fn)) ->
  truthy (obj_get obj n) = true.
Proof. intros Hn. by rewrite (obj_get_own _ _ _ Hn). Qed.

Lemma extend_keeps s name fn msg n w :
  registry_ok s ->
  customValidators s !! n = Some w ->
  customValidators (extend s name fn msg).1 !! n = Some w /\
  customErrorMessages (extend s name fn msg).1 !! n
    = customErrorMessages s !! n.
Proof.
  intros Hok Hw. destruct (extend s name fn msg) as [s' [r|e]] eqn:He.
  - apply extend_Return in He as (n' & -> & _ & _ & _ & Hfree & _ & ->).
    destruct (Hok _ _ Hw) as [f ->].
    assert (n <> n') as Hne.
    { intros <-. by rewrite (wrapper_read _ _ _ Hw) in Hfree. }
    cbn. rewrite !obj_set_lookup.
    by rewrite !decide_False by (intros [? _]; done).
  - by apply extend_Throw in He as ->.
Qed.

Lemma later_keeps s s' n w :
  registry_ok s -> later s s' ->
  customValidators s !! n = Some w ->
  registry_ok s' /\
  customValidators s' !! n = Some w /\
  customErrorMessages s' !! n = customErrorMessages s !! n.
Proof.
  intros Hok Hl Hw. induction Hl as [|s' name fn msg _ (Hok' & Hw' & Hm')].
  - done.
  - destruct (extend_keeps s' name fn msg n w Hok' Hw') as [Hw'' Hm''].
    split; [by apply extend_ok|]. split; [done|]. by rewrite Hm''.
Qed.

(** C6.  Let [extend] have accepted [name], [g] and [msg] on a reachable
    registry, for a name that the library does not resolve.  Then in
    every registry the process comes to be in afterwards, [validate]
    returns a descriptor for any options that name the rule and whose
    arguments, if any, all have a text; on a value that is not
    short-circuited its validator calls the registered wrapper, which
    calls [g] on the same receiver and arguments, and the validator's
    result is [g]'s; and when the options carry no message text, the
    descriptor's message is [msg] with its tokens interpolated. *)
Theorem registered_rule_is_used_afterwards
    (h : host) (s s' s'' : registry) (name : string) (g : func)
    (msg : string) (options : gmap string jsval) :
  reachable s ->
  extend s (JsStr name) (JsFun g) (JsStr msg) = (s', Return JsUndefined) ->
  truthy (obj_get (validatorjs h) name) = false ->
  later s' s'' ->
  obj_get options "validator" = JsStr name ->
  let args := toArray (obj_get options "arguments") in
  let passIfEmpty := truthy (obj_get options "passIfEmpty") in
  forallb (coerces h) args = true ->
  exists d validator,
    validate h s'' options = Return d /\
    d !! "validator" = Some (JsFun validator) /\
    (forall this val more,
       is_undef val = false ->
       passIfEmpty && (is_empty val || is_nil val) = false ->
       call h validator this (val :: more) =
       (Invoke (ExtendWrapper (JsFun g)) this (val :: args)
          :: Invoke g this (val :: args)
          :: (call h g this (val :: args)).1,
        (call h g this (val :: args)).2)) /\
    (is_string (obj_get options "message") = false ->
     exists t,
       interpolateMessageWithArgs h (JsStr msg) args = Return (JsStr t) /\
       d !! "message" = Some (JsStr t)).
Proof.
  intros Hr He Hlib Hl Hv args passIfEmpty Hall. subst args passIfEmpty.
  pose proof (reachable_ok _ Hr) as Hok.
  apply extend_Return in He as (n & [= <-] & Hne & _ & _ & Hfree & _ & ->).
  destruct (falsy_read_free _ _ Hok Hfree) as [Hnone Hinh].
  assert (name <> "__proto__") as Hproto by (intros ->; done).
  pose proof (extend_ok s (JsStr name) (JsFun g) (JsStr msg) Hok) as Hok'.
  unfold extend in Hok'. cbn in Hok'.
  destruct (String.eqb_spec name ""); [done|]. rewrite Hfree in Hok'.
  cbn in Hok'.
  destruct (later_keeps _ _ name (JsFun (ExtendWrapper (JsFun g))) Hok' Hl)
    as (_ & Hcv & Hcem).
  { cbn. rewrite obj_set_lookup. rewrite decide_True; [done|].
    split; [done|]. intros ->. done. }
  cbn in Hcem. rewrite obj_set_lookup in Hcem.
  rewrite decide_True in Hcem by (split; [done|]; intros ->; done).
  assert (Hfn : resolved_fn h s'' options = JsFun (ExtendWrapper (JsFun g))).
  { unfold resolved_fn. rewrite Hv, getValidatorFn_name by done.
    unfold js_or. rewrite Hlib. by rewrite (obj_get_own _ _ _ Hcv). }
  destruct (validate_resolved h s'' options) as [d Hd].
  { by rewrite Hv. } { by rewrite Hv. } { by rewrite Hfn. } { exact Hall. }
  destruct (validate_descriptor _ _ _ _ Hd)
    as (m & Hm & Hval & (t & Ht & Hmsg) & _).
  exists d. eexists. split; [exact Hd|]. split; [exact Hval|]. split.
  - intros this val more Hu Hs. rewrite call_validator_rule by done.
    rewrite Hfn, apply_function. cbn [call].
    change (apply_with (call h)) with (apply h). by rewrite apply_function.
  - intros Hnomsg. exists t. split; [|exact Hmsg].
    unfold messageStr in Hm. rewrite Hv in Hm. cbn [is_string str_of] in Hm.
    rewrite findFirstString_cons, Hnomsg, findFirstString_cons in Hm.
    rewrite (obj_get_own _ _ _ Hcem) in Hm. injection Hm as <-.
    rewrite interpolate_text. unfold resolved_args in Ht. by rewrite Ht.
Qed.

Lemma registered_rule_is_used_afterwards_witness :
  exists d validator,
    validate demo_host foo_bar_registry foo_options = Return d /\
    d !! "validator" = Some (JsFun validator) /\
    call demo_host validator JsNull [JsStr "foo"] =
      ([Invoke (ExtendWrapper (JsFun (Native "foo"))) JsNull
          [JsStr "foo"; JsNum 7];
        Invoke (Native "foo") JsNull [JsStr "foo"; JsNum 7]],
       Return (JsBool true)) /\
    d !! "message" = Some (JsStr "7 is not foo").
Proof.
  destruct (registered_rule_is_used_afterwards demo_host initial foo_registry
              foo_bar_registry "isFoo" (Native "foo") "{ARGS[0]} is not foo"
              foo_options)
    as (d & validator & Hd & Hval & Hcall & Hmsg).
  - apply reachable_initial.
  - vm_compute. reflexivity.
  - vm_compute. reflexivity.
  - unfold foo_bar_registry. apply later_extend, later_now.
  - vm_compute. reflexivity.
  - vm_compute. reflexivity.
  - exists d, validator. split; [exact Hd|]. split; [exact Hval|]. split.
    + rewrite Hcall by (vm_compute; reflexivity). vm_compute. reflexivity.
    + destruct Hmsg as (t & Ht & Hmsg); [vm_compute; reflexivity|].
      rewrite Hmsg. vm_compute in Ht. by injection Ht as <-.
Defined.

(** ** Where [validate] throws *)

(** [validate] ends in one of four ways: in one of its three errors, or,
    past the checks, with a descriptor unless the interpolation of the
    template throws.  The third error is thrown exactly when the name is
    empty or read as a falsy value from both the library and the
    registry. *)
Lemma validate_outcomes h s options :
  let v := obj_get options "validator" in
  (is_undef v = true /\
   validate h s options = Throw (Error "validator option undefined")) \/
  (is_undef v = false /\ is_function v = false /\ is_string v = false /\
   validate h s options =
   Throw (Error ("validator must be of type function or string, received "
                 +:+ typeof v))) \/
  (exists name, v = JsStr name /\
     (name = "" \/
      truthy (obj_get (validatorjs h) name) = false /\
      truthy (obj_get (customValidators s) name) = false) /\
     validate h s options =
     Throw (Error ("validator `" +:+ name +:+
                   "` does not exist in validator.js or as a custom validator"))) \/
  (is_undef v = false /\ is_function v || is_string v = true /\
   is_undef (resolved_fn h s options) = false /\
   ((exists d, validate h s options = Return d) \/
    exists e,
      interpolateMessageWithArgs h (messageStr h s options)
        (resolved_args options) = Throw e /\
      validate h s options = Throw e)).
Proof.
  intros v. subst v.
  assert (Hpast :
    is_undef (obj_get options "validator") = false ->
    is_function (obj_get options "validator")
    || is_string (obj_get options "validator") = true ->
    is_undef (resolved_fn h s options) = false ->
    (exists d, validate h s options = Return d) \/
    exists e,
      interpolateMessageWithArgs h (messageStr h s options)
        (resolved_args options) = Throw e /\
      validate h s options = Throw e).
  { intros Hu Hk Hf. rewrite validate_checked by done.
    destruct (interpolateMessageWithArgs _ _ _) as [t|e]; cbn; eauto. }
  unfold resolved_fn in *.
  destruct (obj_get options "validator") as [| |b|z|name|elems|props|f] eqn:Hv;
    try (left; split; [reflexivity|]; unfold validate; by rewrite Hv);
    try (right; left; repeat split; try reflexivity;
         unfold validate; by rewrite Hv).
  - do 2 right. destruct (decide (name = "")) as [->|Hne].
    { left. exists "". split; [done|]. split; [by left|].
      unfold validate. by rewrite Hv. }
    destruct (is_undef (getValidatorFn h s (JsStr name))) eqn:Hf.
    + left. exists name. split; [done|]. split.
      * right. rewrite getValidatorFn_name in Hf by done.
        unfold js_or in Hf.
        destruct (truthy (obj_get (validatorjs h) name)) eqn:Hlib.
        { rewrite Hlib in Hf. by rewrite (truthy_defined _ Hlib) in Hf. }
        destruct (truthy (obj_get (customValidators s) name)) eqn:Hreg;
          [|done].
        by rewrite (truthy_defined _ Hreg) in Hf.
      * unfold validate. rewrite Hv. cbn -[getValidatorFn]. by rewrite Hf.
    + right. repeat split; try done. by apply Hpast.
  - do 3 right. repeat split; try done. by apply Hpast.
Qed.

(** C2, at the names the third check misses.  A name that the library
    object answers with a truthy value that is no function passes the
    check: for arguments that all have a text, [validate] throws nothing
    and returns a descriptor whose validator closes over that value as
    its rule. *)
Theorem validate_accepts_a_name_that_is_no_function
    (h : host) (s : registry) (options : gmap string jsval) (name : string) :
  obj_get options "validator" = JsStr name ->
  name <> "" ->
  truthy (obj_get (validatorjs h) name) = true ->
  is_function (obj_get (validatorjs h) name) = false ->
  forallb (coerces h) (toArray (obj_get options "arguments")) = true ->
  exists d,
    validate h s options = Return d /\
    d !! "validator" =
      Some (JsFun (ValidatorClosure (obj_get (validatorjs h) name)
                     (toArray (obj_get options "arguments"))
                     (truthy (obj_get options "passIfEmpty")))).
Proof.
  intros Hv Hne Hlib Hnf Hall.
  assert (Hfn : resolved_fn h s options = obj_get (validatorjs h) name).
  { unfold resolved_fn. rewrite Hv, getValidatorFn_name by done.
    unfold js_or. by rewrite Hlib, Hlib. }
  destruct (validate_resolved h s options) as [d Hd].
  { by rewrite Hv. } { by rewrite Hv. }
  { rewrite Hfn. by apply truthy_defined. } { exact Hall. }
  destruct (validate_descriptor _ _ _ _ Hd) as (m & _ & Hval & _).
  exists d. split; [exact Hd|]. by rewrite Hval, Hfn.
Qed.

Lemma validate_accepts_a_name_that_is_no_function_witness :
  (exists d validator,
     validate demo_host initial (<["validator" := JsStr "__proto__"]> ∅)
       = Return d /\
     d !! "validator" = Some (JsFun validator) /\
     call demo_host validator JsNull [JsStr "a@b.c"]
       = ([], Throw (TypeError "fn.apply is not a function"))) /\
  (exists d validator,
     validate library_host initial (<["validator" := JsStr "version"]> ∅)
       = Return d /\
     d !! "validator" = Some (JsFun validator) /\
     call library_host validator JsNull [JsStr "a@b.c"]
       = ([], Throw (TypeError "fn.apply is not a function"))).
Proof.
  split.
  - destruct (validate_accepts_a_name_that_is_no_function demo_host initial
                (<["validator" := JsStr "__proto__"]> ∅) "__proto__")
      as (d & Hd & Hval);
      [reflexivity|discriminate|reflexivity|reflexivity|reflexivity|].
    exists d. eexists. split; [exact Hd|]. split; [exact Hval|].
    vm_compute. reflexivity.
  - destruct (validate_accepts_a_name_that_is_no_function library_host initial
                (<["validator" := JsStr "version"]> ∅) "version")
      as (d & Hd & Hval);
      [reflexivity|discriminate|reflexivity|reflexivity|reflexivity|].
    exists d. eexists. split; [exact Hd|]. split; [exact Hval|].
    vm_compute. reflexivity.
Defined.

(** ** The fields of the descriptor *)

(** Every own field of the options but the reserved four and [__proto__]
    is on the descriptor with its value; [arguments] and [passIfEmpty] are
    not on it; [validator] and [message] are the computed ones. *)
Lemma descriptor_fields h s options d :
  validate h s options = Return d ->
  (forall k, k ∉ ["validator"; "arguments"; "passIfEmpty"; "message";
                  "__proto__"] ->
     d !! k = options !! k) /\
  d !! "arguments" = None /\
  d !! "passIfEmpty" = None /\
  d !! "validator" =
    Some (createValidator (getValidatorFn h s (obj_get options "validator"))
            (toArray (obj_get options "arguments"))
            (truthy (obj_get options "passIfEmpty"))) /\
  exists m, interpolateMessageWithArgs h (messageStr h s options)
              (toArray (obj_get options "arguments")) = Return m /\
            d !! "message" = Some m.
Proof.
  intros Hd.
  destruct (validate_descriptor _ _ _ _ Hd) as (m & Hm & Hval & Hmsg & Hrest).
  split; [|split; [|split; [|split]]].
  - intros k Hk. set_unfold.
    rewrite Hrest by tauto. rewrite decide_False; [done|].
    set_unfold. tauto.
  - by rewrite Hrest.
  - by rewrite Hrest.
  - exact Hval.
  - destruct Hmsg as (t & Ht & Hmsg). exists (JsStr t). split; [|exact Hmsg].
    rewrite Hm, interpolate_text. unfold resolved_args in Ht. by rewrite Ht.
Qed.

(** C7, at the field the copy misses.  An own field of the options named
    [__proto__] is not on the descriptor: [omit] assigns it on a fresh
    object, where the assignment runs the inherited setter and creates no
    property, so that reading it from the descriptor finds the prototype
    and not the value supplied. *)
Theorem own_proto_field_is_not_passed_through
    (h : host) (s : registry) (options d : gmap string jsval) (v : jsval) :
  validate h s options = Return d ->
  options !! "__proto__" = Some v ->
  d !! "__proto__" = None /\
  obj_get d "__proto__" = JsObj object_prototype_methods.
Proof.
  intros Hd Hv.
  destruct (validate_descriptor _ _ _ _ Hd) as (m & _ & _ & _ & Hrest).
  assert (d !! "__proto__" = None) as Hnone by (by rewrite Hrest).
  split; [exact Hnone|]. unfold obj_get. by rewrite Hnone.
Qed.

Lemma own_proto_field_is_not_passed_through_witness :
  exists d,
    validate library_host initial proto_options = Return d /\
    d !! "foo" = Some (JsStr "bar") /\
    proto_options !! "__proto__" = Some (JsNum 5) /\
    d !! "__proto__" = None /\
    obj_get d "__proto__" <> JsNum 5.
Proof.
  destruct (validate library_host initial proto_options) as [d|e] eqn:Hd;
    [|by vm_compute in Hd].
  exists d. split; [reflexivity|].
  destruct (own_proto_field_is_not_passed_through _ _ _ _ (JsNum 5) Hd)
    as [Hnone Hread]; [reflexivity|].
  split; [|split; [reflexivity|split; [exact Hnone|by rewrite Hread]]].
  destruct (descriptor_fields _ _ _ _ Hd) as [Hpass _].
  rewrite Hpass; [reflexivity|]. set_unfold. intuition discriminate.
Defined.

(** ** The message template *)

Lemma messageStr_candidates h s options :
  messageStr h s options = findFirstString (candidates h s options).
Proof.
  unfold messageStr, candidates.
  by destruct (obj_get options "validator").
Qed.

Lemma findFirstString_first vals :
  Exists (fun v => is_string v = true) vals ->
  exists m before after,
    vals = (before ++ JsStr m :: after)%list /\
    Forall (fun v => is_string v = false) before /\
    findFirstString vals = JsStr m.
Proof.
  induction vals as [|v vals IH]; intros Hex; [by inversion Hex|].
  rewrite findFirstString_cons. destruct (is_string v) eqn:Hs.
  - destruct v; try discriminate. exists s, [], vals. by repeat split.
  - inversion Hex as [? ? Hv|? ? Hex']; subst; [congruence|].
    destruct (IH Hex') as (m & before & after & -> & Hb & Hf).
    exists m, (v :: before), after. split; [done|]. split; [|done].
    by constructor.
Qed.

(** C3, as the code has it.  The template of a descriptor is the first
    candidate that is a text, whether empty or not: every candidate before
    it is no text.  The descriptor's message is that template with its
    tokens interpolated. *)
Theorem message_template_is_first_text
    (h : host) (s : registry) (options d : gmap string jsval) :
  validate h s options = Return d ->
  exists m before after,
    candidates h s options = (before ++ JsStr m :: after)%list /\
    Forall (fun v => is_string v = false) before /\
    messageStr h s options = JsStr m /\
    exists t,
      interpolateMessageWithArgs h (JsStr m)
        (toArray (obj_get options "arguments")) = Return (JsStr t) /\
      d !! "message" = Some (JsStr t).
Proof.
  intros Hd.
  destruct (findFirstString_first (candidates h s options))
    as (m & before & after & Hc & Hb & Hf).
  { unfold candidates. do 3 apply Exists_cons_tl. by apply Exists_cons_hd. }
  exists m, before, after. rewrite messageStr_candidates.
  split; [exact Hc|]. split; [exact Hb|]. split; [exact Hf|].
  destruct (validate_descriptor _ _ _ _ Hd)
    as (m' & Hm' & _ & (t & Ht & Hmsg) & _).
  rewrite messageStr_candidates, Hf in Hm'. injection Hm' as <-.
  exists t. split; [|exact Hmsg].
  rewrite interpolate_text. unfold resolved_args in Ht. by rewrite Ht.
Qed.

Lemma message_template_is_first_text_witness :
  exists d,
    validate library_host initial
      (<["validator" := JsStr "isEmail"]> (<["message" := JsNum 1]> ∅))
    = Return d /\
    d !! "message" = Some (JsStr "Not a valid email").
Proof.
  destruct (validate library_host initial
              (<["validator" := JsStr "isEmail"]> (<["message" := JsNum 1]> ∅)))
    as [d|e] eqn:Hd; [|by vm_compute in Hd].
  exists d. split; [reflexivity|].
  destruct (message_template_is_first_text _ _ _ _ Hd)
    as (m & before & after & Hc & Hb & Hm & t & Ht & Hmsg).
  rewrite Hmsg. vm_compute in Hm. injection Hm as <-.
  vm_compute in Ht. by injection Ht as <-.
Defined.

(** C3, as the specification words it, fails for a caller's message that
    is the empty text: the code takes it, the claim passes over it. *)
Lemma empty_message_is_taken :
  (exists d, validate library_host initial empty_message_options = Return d /\
             d !! "message" = Some (JsStr "")) /\
  messageStr library_host initial empty_message_options = JsStr "" /\
  first_non_empty_text (candidates library_host initial empty_message_options)
    = JsStr "Not a valid email" /\
  messageStr library_host initial empty_message_options
    <> first_non_empty_text
         (candidates library_host initial empty_message_options).
Proof.
  split; [|split; [|split]].
  - eexists. split; vm_compute; reflexivity.
  - vm_compute. reflexivity.
  - vm_compute. reflexivity.
  - vm_compute. discriminate.
Qed.

(** ** Interpolating the template *)

Lemma append_cons x (a b : string) : String x a +:+ b = String x (a +:+ b).
Proof. reflexivity. Qed.

Lemma append_empty (b : string) : "" +:+ b = b.
Proof. reflexivity. Qed.

Lemma append_assoc (a b c : string) : (a +:+ b) +:+ c = a +:+ (b +:+ c).
Proof.
  induction a as [|x a IH]; [done|]. by rewrite !append_cons, IH.
Qed.

Lemma digits_only_uint d : digits_only (NilEmpty.string_of_uint d) = true.
Proof. induction d; cbn; done. Qed.

Lemma decimal_digits n : digits_only (decimal n) = true.
Proof.
  unfold decimal, NilZero.string_of_uint.
  destruct (N.to_uint n); try apply digits_only_uint. done.
Qed.

Lemma decimal_not_empty n : decimal n <> "".
Proof.
  unfold decimal, NilZero.string_of_uint.
  destruct (N.to_uint n); cbn; discriminate.
Qed.

Lemma to_uint_not_nil n : N.to_uint n <> Decimal.Nil.
Proof.
  destruct n as [|p]; [discriminate|]. apply DecimalPos.Unsigned.to_uint_nonnil.
Qed.

(** The numeral of an index names that index. *)
Lemma array_get_decimal args n :
  array_get args (decimal n) = default JsUndefined (args !! N.to_nat n).
Proof.
  unfold array_get, decimal.
  rewrite NilZero.usu by apply to_uint_not_nil.
  rewrite DecimalN.Unsigned.of_to. by rewrite String.eqb_refl.
Qed.

Lemma span_digits_run ds c rest :
  digits_only ds = true -> is_digit c = false ->
  span_digits (ds +:+ String c rest) = (ds, String c rest).
Proof.
  intros Hd Hc. induction ds as [|x ds IH].
  - rewrite append_empty. cbn. by rewrite Hc.
  - cbn in Hd. apply andb_true_iff in Hd as [Hx Hd].
    rewrite append_cons. cbn. by rewrite Hx, IH.
Qed.

Lemma token_at_token ds rest :
  digits_only ds = true -> ds <> "" ->
  token_at (token_text ds +:+ rest) = Some ds.
Proof.
  intros Hd Hne. unfold token_at, token_text.
  rewrite !append_assoc, !append_cons, !append_empty. cbn.
  rewrite span_digits_run by done.
  destruct (String.eqb_spec ds ""); done.
Qed.

Lemma token_at_other c s :
  Ascii.eqb c "{" = false -> token_at (String c s) = None.
Proof.
  intros Hc. unfold token_at. cbn [strip_prefix].
  rewrite Ascii.eqb_sym in Hc. by rewrite Hc.
Qed.

Lemma replace_tokens_skip r t rest :
  replace_tokens r (String.length t) (t +:+ rest) = replace_tokens r 0 rest.
Proof.
  induction t as [|x t IH]; [by destruct rest|]. by rewrite append_cons.
Qed.

Lemma replace_tokens_token r ds rest :
  digits_only ds = true -> ds <> "" ->
  replace_tokens r 0 (token_text ds +:+ rest)
  = (t ← r ds; x ← replace_tokens r 0 rest; Return (t +:+ x)).
Proof.
  intros Hd Hne. pose proof (token_at_token ds rest Hd Hne) as Ht.
  replace (token_text ds +:+ rest)
    with (String "{" (("ARGS[" +:+ ds +:+ "]}") +:+ rest)) in *
    by (unfold token_text; by rewrite !append_cons, !append_empty).
  cbn [replace_tokens]. rewrite Ht.
  replace (String.length (token_text ds) - 1)
    with (String.length ("ARGS[" +:+ ds +:+ "]}"))
    by (unfold token_text; rewrite !append_cons, !append_empty; cbn; lia).
  by rewrite replace_tokens_skip.
Qed.

Lemma replace_tokens_text r t rest :
  brace_free t = true ->
  replace_tokens r 0 (t +:+ rest)
  = (x ← replace_tokens r 0 rest; Return (t +:+ x)).
Proof.
  induction t as [|x t IH]; cbn [brace_free]; intros Hb.
  { rewrite append_empty. by destruct (replace_tokens r 0 rest). }
  apply andb_true_iff in Hb as [Hx Hb]. apply negb_true_iff in Hx.
  rewrite !append_cons. cbn [replace_tokens].
  rewrite token_at_other by done. rewrite IH by done.
  by destruct (replace_tokens r 0 rest).
Qed.

Lemma brace_free_append a b :
  brace_free (a +:+ b) = brace_free a && brace_free b.
Proof.
  induction a as [|x a IH]; [done|].
  rewrite append_cons. cbn. by rewrite IH, andb_assoc.
Qed.

Lemma brace_free_no_token s : brace_free s = true -> contains_token s = false.
Proof.
  induction s as [|x s IH]; cbn [brace_free contains_token]; [done|].
  intros Hb. apply andb_true_iff in Hb as [Hx Hb]. apply negb_true_iff in Hx.
  rewrite token_at_other by done. rewrite IH by done.
  rewrite bool_decide_eq_false_2; [done|]. by intros [? ?].
Qed.

Lemma replacer_fill h args n :
  plain args (Token n) ->
  replacer h args (decimal n) = fill h args (Token n).
Proof.
  intros Hp. unfold replacer, fill. rewrite array_get_decimal.
  destruct (args !! N.to_nat n) as [v|] eqn:Hv; cbn; [|done].
  unfold js_or. by rewrite (Hp v Hv).
Qed.

Lemma fill_all_cons h args p ps :
  fill_all h args (p :: ps) =
  (t ← fill h args p; rest ← fill_all h args ps; Return (t +:+ rest)).
Proof. reflexivity. Qed.

Lemma replace_tokens_render h args ps :
  Forall (plain args) ps ->
  replace_tokens (replacer h args) 0 (render ps) = fill_all h args ps.
Proof.
  induction 1 as [|p ps Hp _ IH]; [done|].
  rewrite fill_all_cons. cbn [render fold_right]. fold (render ps).
  destruct p as [t|n].
  - cbn [render_piece fill]. rewrite replace_tokens_text by done.
    by rewrite IH.
  - cbn [render_piece].
    rewrite replace_tokens_token
      by (apply decimal_digits || apply decimal_not_empty).
    by rewrite IH, replacer_fill.
Qed.

Lemma strip_prefix_append pat s x :
  brace_free pat = true -> opens_with_brace x ->
  strip_prefix pat (s +:+ x) = (fun r => r +:+ x) <$> strip_prefix pat s.
Proof.
  intros Hpat Hx. revert s.
  induction pat as [|a pat IH]; intros s; [done|].
  cbn [brace_free] in Hpat. apply andb_true_iff in Hpat as [Ha Hpat].
  apply negb_true_iff in Ha.
  destruct s as [|b s].
  - rewrite append_empty. destruct x as [|c x]; [done|].
    cbn in Hx. subst c. cbn [strip_prefix]. by rewrite Ha.
  - rewrite append_cons. cbn [strip_prefix].
    destruct (Ascii.eqb a b); [by apply IH|done].
Qed.

Lemma span_digits_append s x :
  opens_with_brace x ->
  span_digits (s +:+ x) = ((span_digits s).1, (span_digits s).2 +:+ x).
Proof.
  intros Hx. induction s as [|c s IH].
  - rewrite append_empty. destruct x as [|b x]; [done|].
    cbn in Hx. by subst b.
  - rewrite append_cons. cbn [span_digits]. rewrite IH.
    destruct (is_digit c); [|done]. by destruct (span_digits s).
Qed.

Lemma length_append (a b : string) :
  String.length (a +:+ b) = String.length a + String.length b.
Proof.
  induction a as [|x a IH]; [done|]. rewrite append_cons. cbn. by rewrite IH.
Qed.

Lemma strip_prefix_cons a pat b s :
  strip_prefix (String a pat) (String b s)
  = if Ascii.eqb a b then strip_prefix pat s else None.
Proof. reflexivity. Qed.

(** A match that starts before the cut ends before it. *)
Lemma token_at_append c s x :
  opens_with_brace x ->
  token_at (String c s +:+ x) = token_at (String c s).
Proof.
  intros Hx. unfold token_at.
  rewrite append_cons, !(strip_prefix_cons "{" "ARGS[").
  destruct (Ascii.eqb "{" c); [|done].
  rewrite strip_prefix_append by done.
  destruct (strip_prefix "ARGS[" s) as [s1|]; [|done]. cbn [fmap option_fmap option_map].
  rewrite span_digits_append by done.
  destruct (span_digits s1) as [ds s2]. cbn [fst snd].
  destruct (String.eqb ds ""); [done|].
  rewrite strip_prefix_append by done.
  by destruct (strip_prefix "]}" s2).
Qed.

Lemma strip_prefix_Some pat s r :
  strip_prefix pat s = Some r -> s = pat +:+ r.
Proof.
  revert s. induction pat as [|a pat IH]; intros s; [by intros [= ->]|].
  destruct s as [|b s]; [done|]. cbn [strip_prefix].
  destruct (Ascii.eqb_spec a b) as [->|]; [|done].
  intros Hs. by rewrite append_cons, <- (IH _ Hs).
Qed.

Lemma span_digits_spec s :
  s = (span_digits s).1 +:+ (span_digits s).2 /\
  digits_only (span_digits s).1 = true.
Proof.
  induction s as [|c s [IH1 IH2]]; [done|]. cbn [span_digits].
  destruct (is_digit c) eqn:Hc; [|done].
  destruct (span_digits s) as [ds r]. cbn [fst snd] in *.
  split; [by rewrite append_cons, <- IH1|]. cbn. by rewrite Hc.
Qed.

(** What a match at the start of [s] tells about [s]. *)
Lemma token_at_Some s ds :
  token_at s = Some ds ->
  digits_only ds = true /\ ds <> "" /\
  exists rest, s = token_text ds +:+ rest.
Proof.
  unfold token_at.
  destruct (strip_prefix "{ARGS[" s) as [s1|] eqn:H1; [|done].
  pose proof (span_digits_spec s1) as [Hs1 Hd].
  destruct (span_digits s1) as [ds' s2]. cbn [fst snd] in *.
  destruct (String.eqb_spec ds' "") as [|Hne]; [done|].
  destruct (strip_prefix "]}" s2) as [s3|] eqn:H3; [|done].
  intros [= <-]. split; [done|]. split; [done|]. exists s3.
  apply strip_prefix_Some in H1, H3. subst s s1 s2.
  unfold token_text. by rewrite !append_assoc.
Qed.

(** The scan of a text cut before an opening brace is the scan of the two
    parts. *)
Lemma replace_tokens_cut r x :
  opens_with_brace x ->
  forall pre,
    replace_tokens r 0 (pre +:+ x)
    = (a ← replace_tokens r 0 pre; b ← replace_tokens r 0 x;
       Return (a +:+ b)).
Proof.
  intros Hx pre.
  remember (String.length pre) as n eqn:Hn.
  revert pre Hn. induction n as [n IH] using lt_wf_ind. intros pre Hn.
  destruct pre as [|c s].
  { rewrite append_empty. cbn. by destruct (replace_tokens r 0 x). }
  pose proof (token_at_append c s x Hx) as Hat.
  destruct (token_at (String c s)) as [ds|] eqn:Ht.
  - destruct (token_at_Some _ _ Ht) as (Hd & Hne & rest & Hs).
    rewrite Hs, append_assoc, !replace_tokens_token by done.
    rewrite (IH (String.length rest)); [| |done].
    + destruct (r ds) as [t|e]; [|done]. cbn.
      destruct (replace_tokens r 0 rest) as [a|e]; [|done]. cbn.
      destruct (replace_tokens r 0 x) as [b|e]; [|done]. cbn.
      by rewrite append_assoc.
    + subst n. rewrite Hs, length_append. unfold token_text.
      rewrite !append_cons. cbn. lia.
  - rewrite append_cons in *. cbn [replace_tokens]. rewrite Hat, Ht.
    rewrite (IH (String.length s)); [| |done].
    + destruct (replace_tokens r 0 s) as [a|e]; [|done]. cbn.
      by destruct (replace_tokens r 0 x).
    + subst n. cbn. lia.
Qed.

(** C4, as the code has it.  In every template every token [{ARGS[n]}],
    [n] in decimal, is replaced, and the text before and after it is
    interpolated on its own, from the left: by the [n]th argument coerced
    to text when that argument is there and truthy, by the empty text
    when the index has no argument; what the coercion throws, the
    interpolation throws.  The text put in is not scanned again, so that a
    message may hold tokens; the message of a template of brace-free text
    and tokens holds none when no text put in brings an opening brace. *)
Theorem tokens_are_replaced_in_one_pass (h : host) (args : list jsval) :
  (forall (before after : string) (n : N),
     (forall v, args !! N.to_nat n = Some v -> truthy v = true) ->
     interpolateMessageWithArgs h
       (JsStr (before +:+ token_text (decimal n) +:+ after)) args
     = (b ← replace_tokens (replacer h args) 0 before;
        t ← match args !! N.to_nat n with
            | Some v => to_string h v
            | None => Return ""
            end;
        a ← replace_tokens (replacer h args) 0 after;
        Return (JsStr (b +:+ t +:+ a)))) /\
  (forall ps : list piece,
     Forall (plain args) ps ->
     interpolateMessageWithArgs h (JsStr (render ps)) args
       = (t ← fill_all h args ps; Return (JsStr t)) /\
     (forall t,
        fill_all h args ps = Return t ->
        Forall (fun p => forall x, fill h args p = Return x ->
                                   brace_free x = true) ps ->
        contains_token t = false)).
Proof.
  split.
  - intros before after n Hn. rewrite interpolate_text.
    rewrite replace_tokens_cut by done.
    rewrite replace_tokens_token
      by (apply decimal_digits || apply decimal_not_empty).
    rewrite (replacer_fill h args n Hn). cbn [fill].
    destruct (replace_tokens (replacer h args) 0 before) as [b|e]; [|done].
    cbn. destruct (match args !! N.to_nat n with
                   | Some v => to_string h v
                   | None => Return ""
                   end) as [t|e]; [|done].
    cbn. by destruct (replace_tokens (replacer h args) 0 after).
  - intros ps Hps. split.
    + rewrite interpolate_text. by rewrite replace_tokens_render.
    + clear Hps. intros t Ht Hfree. apply brace_free_no_token.
      revert t Ht. induction Hfree as [|p ps' Hp _ IH]; intros t Ht.
      { by injection Ht as <-. }
      rewrite fill_all_cons in Ht.
      destruct (fill h args p) as [x|e] eqn:Hx; [|done]. cbn in Ht.
      destruct (fill_all h args ps') as [rest|e]; [|done]. cbn in Ht.
      injection Ht as <-. rewrite brace_free_append, (Hp x eq_refl).
      by apply IH.
Qed.

Lemma tokens_are_replaced_in_one_pass_witness :
  render length_template
    = "Name should be between {ARGS[0]} and {ARGS[1]} characters{ARGS[2]}" /\
  interpolateMessageWithArgs demo_host (JsStr (render length_template))
    [JsNum 3; JsNum 50]
    = Return (JsStr "Name should be between 3 and 50 characters") /\
  contains_token "Name should be between 3 and 50 characters" = false /\
  interpolateMessageWithArgs demo_host
    (JsStr ("{ARGS{ARGS[9]}" +:+ token_text (decimal 1) +:+ "{ARGS[x]}"))
    [JsNum 3; JsNum 50]
    = Return (JsStr "{ARGS50{ARGS[x]}") /\
  interpolateMessageWithArgs demo_host
    (JsStr ("got " +:+ token_text (decimal 0) +:+ ""))
    [JsObj (<["toString" := JsNum 1]> ∅)]
    = Throw (TypeError "Cannot convert object to primitive value").
Proof.
  split; [vm_compute; reflexivity|].
  destruct (tokens_are_replaced_in_one_pass demo_host [JsNum 3; JsNum 50])
    as [Hany Hpieces].
  destruct (Hpieces length_template) as [Hrun Hfree].
  - repeat constructor; try reflexivity;
      intros v Hv; vm_compute in Hv; by simplify_eq.
  - split; [|split; [|split]].
    + rewrite Hrun. vm_compute. reflexivity.
    + apply (Hfree "Name should be between 3 and 50 characters").
      * vm_compute. reflexivity.
      * repeat constructor; intros x Hx; vm_compute in Hx;
          injection Hx as <-; vm_compute; reflexivity.
    + rewrite Hany; [vm_compute; reflexivity|].
      intros v Hv. vm_compute in Hv. by simplify_eq.
    + destruct (tokens_are_replaced_in_one_pass demo_host
                  [JsObj (<["toString" := JsNum 1]> ∅)]) as [Hthrows _].
      rewrite Hthrows; [vm_compute; reflexivity|].
      intros v Hv. vm_compute in Hv. by simplify_eq.
Defined.

(** C4, as the specification words it, fails where an argument's text
    holds a token: the text is put in as it is, so the message of the
    descriptor holds a token, here one whose index has an argument. *)
Lemma substituted_text_is_not_scanned_again :
  toArray (obj_get token_argument_options "arguments") !! 1%nat
    = Some (JsStr "x") /\
  exists d,
    validate library_host initial token_argument_options = Return d /\
    d !! "message" = Some (JsStr "Got {ARGS[1]}") /\
    contains_token "Got {ARGS[1]}" = true.
Proof.
  split; [reflexivity|].
  eexists. split; [vm_compute; reflexivity|].
  split; vm_compute; reflexivity.
Qed.

(** Two further departures from the wording of C4, kept on record: an
    argument that is falsy is replaced by the empty text and not by its
    own text, and an index written with a leading zero names no element. *)
Lemma falsy_argument_becomes_empty_text (h : host) :
  interpolateMessageWithArgs h (JsStr "at least {ARGS[0]}") [JsNum 0]
    = Return (JsStr "at least ") /\
  to_string h (JsNum 0) = Return "0".
Proof. split; vm_compute; reflexivity. Qed.

Lemma padded_index_names_no_element (h : host) :
  interpolateMessageWithArgs h (JsStr "{ARGS[00]}") [JsNum 7]
    = Return (JsStr "").
Proof. vm_compute. reflexivity. Qed.

(** * Further properties *)

(** ** [omit] *)

Lemma obj_set_insert (obj : gmap string jsval) key v :
  key <> "__proto__" -> obj_set obj key v = <[key := v]> obj.
Proof. intros Hk. unfold obj_set. rewrite decide_False; [done|]. tauto. Qed.

(** X1.  [omit] drops the listed keys and keeps every other own property
    with its value, but for [__proto__]; it adds nothing, so its result is
    part of the object; without keys it copies an object that has no own
    [__proto__]; and of an object without properties nothing is left. *)
Theorem omit_drops_listed_keys_only
    (obj : gmap string jsval) (keys : list string) :
  (forall k, k ∈ keys -> omit obj keys !! k = None) /\
  (forall k, k ∉ keys -> k <> "__proto__" -> omit obj keys !! k = obj !! k) /\
  omit obj keys ⊆ obj /\
  (obj !! "__proto__" = None -> omit obj [] = obj) /\
  omit ∅ keys = ∅.
Proof.
  split; [|split; [|split; [|split]]].
  - intros k Hk. rewrite omit_lookup. by rewrite decide_True by tauto.
  - intros k Hk Hp. rewrite omit_lookup. by rewrite decide_False by tauto.
  - apply map_subseteq_spec. intros k v. rewrite omit_lookup.
    by case_decide.
  - intros Hp. apply map_eq. intros k. rewrite omit_lookup.
    case_decide as Hk; [|done]. destruct Hk as [Hk| ->]; [|done].
    by apply elem_of_nil in Hk.
  - apply map_eq. intros k. rewrite omit_lookup, lookup_empty.
    by case_decide.
Qed.

Lemma omit_drops_listed_keys_only_witness :
  omit proto_options ["validator"] !! "validator" = None /\
  omit proto_options ["validator"] !! "foo" = Some (JsStr "bar") /\
  omit foo_options [] = foo_options.
Proof.
  destruct (omit_drops_listed_keys_only proto_options ["validator"])
    as (Hdrop & Hkeep & _).
  destruct (omit_drops_listed_keys_only foo_options [])
    as (_ & _ & _ & Hcopy & _).
  split; [|split].
  - apply Hdrop. set_unfold. tauto.
  - rewrite Hkeep; [reflexivity| |discriminate].
    set_unfold. intuition discriminate.
  - apply Hcopy. reflexivity.
Defined.

(** X2.  Omitting in two steps is omitting the keys of both steps at once,
    and omitting the same keys again changes nothing. *)
Theorem omit_twice_is_omit_of_both
    (obj : gmap string jsval) (keys more : list string) :
  omit (omit obj keys) more = omit obj (keys ++ more)%list /\
  omit (omit obj keys) keys = omit obj keys.
Proof.
  split; apply map_eq; intros k; rewrite !omit_lookup;
    repeat case_decide; try done; exfalso; set_unfold; tauto.
Qed.

(** ** [findFirstString] *)

(** X3.  [findFirstString] answers [undefined] exactly when no value is a
    text, a text of the list otherwise; over two lists in a row it answers
    for the first list when that holds a text, and for the second when
    not. *)
Theorem findFirstString_undefined_iff_no_text (vals more : list jsval) :
  (findFirstString vals = JsUndefined
   <-> Forall (fun v => is_string v = false) vals) /\
  (findFirstString vals = JsUndefined
   \/ is_string (findFirstString vals) = true
      /\ findFirstString vals ∈ vals) /\
  findFirstString (vals ++ more)%list =
    (if is_string (findFirstString vals) then findFirstString vals
     else findFirstString more).
Proof.
  induction vals as [|v vals (IH1 & IH2 & IH3)].
  - split; [|split]; [split; by constructor|by left|done].
  - cbn [app]. rewrite !findFirstString_cons.
    destruct (is_string v) eqn:Hv.
    + split; [|split].
      * split; [by destruct v|]. intros Hall. inversion Hall; congruence.
      * right. rewrite Hv. split; [done|]. by left.
      * by rewrite Hv.
    + split; [|split].
      * rewrite IH1. split; [by constructor|]. by inversion 1.
      * destruct IH2 as [?|[? ?]]; [by left|right]. split; [done|]. by right.
      * exact IH3.
Qed.

(** ** Messages without tokens *)

Lemma contains_token_occurrence s :
  contains_token s = true ->
  exists before ds after,
    digits_only ds = true /\ ds <> "" /\
    s = before +:+ token_text ds +:+ after.
Proof.
  induction s as [|c s IH]; [done|]. cbn [contains_token].
  intros Hc. apply orb_true_iff in Hc as [Hc|Hc].
  - apply bool_decide_eq_true in Hc as [ds Hds].
    destruct (token_at_Some _ _ Hds) as (Hd & Hne & rest & Hs).
    exists "", ds, rest. by rewrite append_empty.
  - destruct (IH Hc) as (before & ds & after & Hd & Hne & ->).
    exists (String c before), ds, after. by rewrite append_cons.
Qed.

Lemma replace_tokens_no_token r s :
  contains_token s = false -> replace_tokens r 0 s = Return s.
Proof.
  induction s as [|c s IH]; [done|]. cbn [contains_token replace_tokens].
  intros Hc. apply orb_false_iff in Hc as [Hc Hs].
  apply bool_decide_eq_false in Hc.
  destruct (token_at (String c s)) as [ds|]; [by destruct Hc|].
  by rewrite IH.
Qed.

Lemma occurrence_contains_token before ds after :
  digits_only ds = true -> ds <> "" ->
  contains_token (before +:+ token_text ds +:+ after) = true.
Proof.
  intros Hd Hne. induction before as [|c before IH].
  - rewrite append_empty.
    pose proof (token_at_token ds after Hd Hne) as Ht.
    unfold token_text in *. rewrite !append_cons in *.
    cbn [contains_token]. rewrite Ht.
    rewrite bool_decide_eq_true_2 by eauto. done.
  - rewrite append_cons. cbn [contains_token]. rewrite IH.
    apply orb_true_r.
Qed.

(** X4.  A message in which no [{ARGS[n]}] occurs ([contains_token]
    decides it, see [contains_token_occurrence] and
    [occurrence_contains_token]) is interpolated to itself whatever the
    arguments, and a caller's message without tokens is the message of the
    descriptor, letter for letter. *)
Theorem message_without_tokens_is_kept
    (h : host) (s : registry) (options : gmap string jsval) (m : string) :
  contains_token m = false ->
  (forall args, interpolateMessageWithArgs h (JsStr m) args
                = Return (JsStr m)) /\
  (forall d, obj_get options "message" = JsStr m ->
             validate h s options = Return d ->
             d !! "message" = Some (JsStr m)).
Proof.
  intros Hm. split.
  - intros args. rewrite interpolate_text.
    by rewrite replace_tokens_no_token.
  - intros d Hmsg Hd.
    destruct (validate_descriptor _ _ _ _ Hd)
      as (m' & Hm' & _ & (t & Ht & Hdm) & _).
    rewrite Hdm. unfold messageStr in Hm'.
    rewrite findFirstString_cons, Hmsg in Hm'. cbn [is_string] in Hm'.
    injection Hm' as <-. rewrite replace_tokens_no_token in Ht by done.
    by injection Ht as <-.
Qed.

Lemma message_without_tokens_is_kept_witness :
  interpolateMessageWithArgs demo_host (JsStr "Use {curly} braces [0] freely")
    [JsNum 1]
  = Return (JsStr "Use {curly} braces [0] freely").
Proof.
  destruct (message_without_tokens_is_kept demo_host initial ∅
              "Use {curly} braces [0] freely") as [Hkept _];
    [vm_compute; reflexivity|].
  apply Hkept.
Defined.

(** ** When [validate] returns *)

(** X5.  [validate] returns a descriptor exactly when the [validator]
    option is a function, or is a name that is not empty and that the
    library object or the registry object answers with a truthy value, and
    the interpolation of the message returns; in every other case it
    throws.  The interpolation returns whenever every argument can be
    coerced to text. *)
Theorem validate_returns_iff
    (h : host) (s : registry) (options : gmap string jsval) :
  ((exists d, validate h s options = Return d) <->
   (is_function (obj_get options "validator") = true \/
    exists name,
      obj_get options "validator" = JsStr name /\ name <> "" /\
      (truthy (obj_get (validatorjs h) name) = true \/
       truthy (obj_get (customValidators s) name) = true)) /\
   exists t,
     interpolateMessageWithArgs h (messageStr h s options)
       (toArray (obj_get options "arguments")) = Return t) /\
  (forallb (coerces h) (toArray (obj_get options "arguments")) = true ->
   exists t,
     interpolateMessageWithArgs h (messageStr h s options)
       (toArray (obj_get options "arguments")) = Return t).
Proof.
  split; [split|].
  - intros [d Hd]. split.
    + destruct (validate_outcomes h s options)
        as [[_ Ht]|[(_ & _ & _ & Ht)|[(name & Hv & Hfalsy & Ht)|_]]];
        try congruence.
      destruct (obj_get options "validator")
        as [| |b|z|name|elems|props|f] eqn:Hv;
        try (by unfold validate in Hd; rewrite Hv in Hd).
      * right. exists name. split; [done|].
        destruct (decide (name = "")) as [->|Hne].
        { by unfold validate in Hd; rewrite Hv in Hd. }
        split; [done|].
        destruct (truthy (obj_get (validatorjs h) name)) eqn:Hlib;
          [by left|].
        destruct (truthy (obj_get (customValidators s) name)) eqn:Hreg;
          [by right|].
        unfold validate in Hd. rewrite Hv in Hd. cbn -[getValidatorFn] in Hd.
        rewrite getValidatorFn_name in Hd by done. unfold js_or in Hd.
        by rewrite Hlib, Hreg in Hd.
      * by left.
    + destruct (validate_descriptor _ _ _ _ Hd)
        as (m & Hm & _ & (t & Ht & _) & _).
      exists (JsStr t). rewrite Hm, interpolate_text.
      unfold resolved_args in Ht. by rewrite Ht.
  - intros [Hres [t Ht]].
    assert (is_undef (obj_get options "validator") = false /\
            is_function (obj_get options "validator")
            || is_string (obj_get options "validator") = true /\
            is_undef (resolved_fn h s options) = false) as (H1 & H2 & H3).
    { destruct Hres as [Hf|(name & Hv & Hne & Hl)].
      - split; [by destruct (obj_get options "validator")|].
        split; [by rewrite Hf|].
        unfold resolved_fn, getValidatorFn. rewrite Hf.
        by destruct (obj_get options "validator").
      - rewrite Hv. split; [done|]. split; [done|].
        unfold resolved_fn. rewrite Hv, getValidatorFn_name by done.
        unfold js_or.
        destruct (truthy (obj_get (validatorjs h) name)) eqn:Hlib.
        + rewrite Hlib. by apply truthy_defined.
        + destruct Hl as [?|Hreg]; [done|]. rewrite Hreg.
          by apply truthy_defined. }
    rewrite (validate_checked h s options H1 H2 H3).
    unfold resolved_args. rewrite Ht. cbn. eauto.
  - intros Hall. destruct (messageStr_string h s options) as [m ->].
    destruct (interpolate_returns h _ m Hall) as (t & _ & Ht). eauto.
Qed.

Lemma validate_returns_iff_witness :
  (exists d, validate library_host initial
               (<["validator" := JsStr "isEmail"]> ∅) = Return d) /\
  ~ (exists d, validate library_host initial
                 (<["validator" := JsStr "isNothing"]> ∅) = Return d) /\
  ~ (exists d, validate library_host initial unprintable_options = Return d).
Proof.
  destruct (validate_returns_iff library_host initial
              (<["validator" := JsStr "isEmail"]> ∅)) as [Hemail Hcoerce].
  destruct (validate_returns_iff library_host initial
              (<["validator" := JsStr "isNothing"]> ∅)) as [Hnothing _].
  destruct (validate_returns_iff library_host initial unprintable_options)
    as [Hobject _].
  split; [|split].
  - apply Hemail. split; [|by apply Hcoerce].
    right. exists "isEmail".
    split; [reflexivity|]. split; [discriminate|]. left. reflexivity.
  - intros Hd. apply Hnothing in Hd
      as [[Hf|(name & Hv & _ & [Ht|Ht])] _].
    + vm_compute in Hf. discriminate.
    + vm_compute in Hv. injection Hv as <-. vm_compute in Ht. discriminate.
    + vm_compute in Hv. injection Hv as <-. vm_compute in Ht. discriminate.
  - intros Hd. apply Hobject in Hd as [_ [t Ht]].
    vm_compute in Ht. discriminate.
Defined.

(** ** What [extend] does to the registry *)

(** What a call that [extend] accepts on a reachable registry was given,
    and what it leaves. *)
Lemma extend_accepts s name fn msg s' r :
  reachable s ->
  extend s name fn msg = (s', Return r) ->
  exists n g m,
    name = JsStr n /\ fn = JsFun g /\
    (if is_undef msg then JsStr "Error" else msg) = JsStr m /\
    n <> "" /\ customValidators s !! n = None /\ inherited n = None /\
    r = JsUndefined /\
    s' = {| customValidators :=
              <[n := JsFun (ExtendWrapper (JsFun g))]> (customValidators s);
            customErrorMessages :=
              <[n := JsStr m]> (customErrorMessages s) |}.
Proof.
  intros Hr He.
  apply extend_Return in He
    as (n & -> & Hne & Hf & [m Hm] & Hfree & -> & ->).
  apply typeof_function in Hf as [g ->].
  destruct (falsy_read_free _ _ (reachable_ok _ Hr) Hfree) as [Hnone Hinh].
  assert (n <> "__proto__") as Hp by (intros ->; done).
  exists n, g, m. rewrite Hm, !obj_set_insert by done. by repeat split.
Qed.

(** What holds of the two tables of every reachable registry. *)
Lemma reachable_tables s :
  reachable s ->
  forall k,
    (is_Some (customErrorMessages s !! k)
     <-> is_Some (customValidators s !! k)) /\
    (is_Some (customValidators s !! k) ->
     k <> "" /\ inherited k = None /\
     (exists g, customValidators s !! k
                = Some (JsFun (ExtendWrapper (JsFun g)))) /\
     (exists m, customErrorMessages s !! k = Some (JsStr m))).
Proof.
  induction 1 as [|s name fn msg Hr IH]; intros k.
  - cbn. rewrite !lookup_empty. split; [done|]. by intros [? ?].
  - destruct (extend s name fn msg) as [s' [r|e]] eqn:He; cbn [fst].
    + apply (extend_accepts _ _ _ _ _ _ Hr) in He
        as (n & g & m & _ & _ & _ & Hne & Hnone & Hinh & _ & ->).
      cbn. destruct (decide (k = n)) as [->|Hk].
      * rewrite !lookup_insert_eq. split; [split; eauto|].
        intros _. repeat split; eauto.
      * rewrite !lookup_insert_ne by done. apply IH.
    + apply extend_Throw in He as ->. apply IH.
Qed.

(** X6.  For options whose [validator] is a function [validate] throws
    none of its own three errors: it returns a descriptor whose validator
    closes over that very function, or it throws what the interpolation of
    the message threw.  It returns whenever every argument can be coerced
    to text.  On a reachable registry, when the options carry no message
    text and the table of default messages has no entry for the empty
    name, it returns whatever the arguments, and the message is
    ['Error']. *)
Theorem function_validator_passes_every_check
    (h : host) (s : registry) (options : gmap string jsval) (f : func) :
  obj_get options "validator" = JsFun f ->
  ((exists d,
      validate h s options = Return d /\
      d !! "validator" =
        Some (JsFun (ValidatorClosure (JsFun f)
                       (toArray (obj_get options "arguments"))
                       (truthy (obj_get options "passIfEmpty"))))) \/
   (exists e,
      interpolateMessageWithArgs h (messageStr h s options)
        (toArray (obj_get options "arguments")) = Throw e /\
      validate h s options = Throw e)) /\
  (forallb (coerces h) (toArray (obj_get options "arguments")) = true ->
   exists d, validate h s options = Return d) /\
  (reachable s ->
   is_string (obj_get options "message") = false ->
   defaultErrorMessages h !! "" = None ->
   exists d,
     validate h s options = Return d /\
     d !! "message" = Some (JsStr "Error")).
Proof.
  intros Hv.
  assert (validate h s options =
          (message ← interpolateMessageWithArgs h (messageStr h s options)
                       (resolved_args options);
           Return (object_assign
                     (<["validator" := createValidator (resolved_fn h s options)
                                         (resolved_args options)
                                         (resolved_flag options)]>
                        (<["message" := message]> ∅))
                     (omit options
                        ["passIfEmpty"; "message"; "validator";
                         "arguments"])))) as Hrun.
  { apply validate_checked; rewrite ?Hv; try done.
    unfold resolved_fn. by rewrite Hv. }
  split; [|split].
  - destruct (validate h s options) as [d|e] eqn:Hd.
    + left. exists d. split; [done|].
      destruct (validate_descriptor _ _ _ _ Hd) as (m & _ & Hval & _).
      rewrite Hval. unfold resolved_fn. by rewrite Hv.
    + right. exists e. split; [|done]. unfold resolved_args in Hrun.
      destruct (interpolateMessageWithArgs h (messageStr h s options)
                  (toArray (obj_get options "arguments"))); [done|].
      cbn in Hrun. congruence.
  - intros Hall. apply validate_resolved; rewrite ?Hv; try done.
    unfold resolved_fn. by rewrite Hv.
  - intros Hr Hnomsg Hdem.
    assert (messageStr h s options = JsStr "Error") as Hm.
    { unfold messageStr. rewrite Hv. cbn [is_string].
      rewrite findFirstString_cons, Hnomsg.
      destruct (reachable_tables s Hr "") as [Hiff Hkey].
      assert (customErrorMessages s !! "" = None) as Hcem.
      { destruct (customErrorMessages s !! "") eqn:E; [|done].
        destruct Hiff as [Hcv _].
        destruct (Hkey (Hcv ltac:(eauto))) as [? _]. done. }
      unfold obj_get. by rewrite Hcem, Hdem. }
    rewrite Hrun, Hm, interpolate_text.
    rewrite replace_tokens_no_token by reflexivity.
    eexists. split; [reflexivity|].
    rewrite assign_omit_lookup.
    rewrite decide_True by (left; set_unfold; tauto). done.
Qed.

Lemma function_validator_passes_every_check_witness :
  (exists d,
     validate library_host foo_bar_registry unprintable_default_options
       = Return d /\
     d !! "message" = Some (JsStr "Error")) /\
  validate library_host foo_bar_registry unprintable_function_options
    = Throw (TypeError "Cannot convert object to primitive value").
Proof.
  split.
  - destruct (function_validator_passes_every_check library_host
                foo_bar_registry unprintable_default_options
                (Native "mine")) as (_ & _ & Hmsg); [reflexivity|].
    apply Hmsg.
    + unfold foo_bar_registry, foo_registry.
      apply reachable_extend, reachable_extend, reachable_initial.
    + reflexivity.
    + reflexivity.
  - destruct (function_validator_passes_every_check library_host
                foo_bar_registry unprintable_function_options
                (Native "mine")) as ([(d & Hd & _)|(e & He & Hd)] & _);
      [reflexivity| |].
    + by vm_compute in Hd.
    + rewrite Hd. vm_compute in He. by injection He as <-.
Defined.

(** X7.  The own keys of a descriptor are [validator], [message] and the
    own keys of the options but the reserved four and [__proto__]; its
    message is a text and its validator a function. *)
Theorem descriptor_keys_and_kinds
    (h : host) (s : registry) (options d : gmap string jsval) :
  validate h s options = Return d ->
  dom d = ({["validator"; "message"]} : gset string)
          ∪ (dom options
             ∖ {["passIfEmpty"; "message"; "validator"; "arguments";
                 "__proto__"]}) /\
  is_string (obj_get d "message") = true /\
  is_function (obj_get d "validator") = true.
Proof.
  intros Hd.
  destruct (validate_descriptor _ _ _ _ Hd)
    as (m & _ & Hval & (t & _ & Hmsg) & Hrest).
  split; [|split].
  - apply set_eq. intros k. rewrite elem_of_union, elem_of_difference.
    rewrite !elem_of_dom.
    destruct (decide (k = "validator")) as [->|Hk1].
    { rewrite Hval. set_unfold. split; eauto. }
    destruct (decide (k = "message")) as [->|Hk2].
    { rewrite Hmsg. set_unfold. split; eauto. }
    rewrite Hrest by done. case_decide as Hk; set_unfold.
    + split; [by intros [? ?]|]. intros [?|[_ ?]]; tauto.
    + split; [|tauto]. intros Hs. right. split; [done|]. tauto.
  - by rewrite (obj_get_own _ _ _ Hmsg).
  - by rewrite (obj_get_own _ _ _ Hval).
Qed.

Lemma descriptor_keys_and_kinds_witness :
  exists d,
    validate library_host initial proto_options = Return d /\
    dom d = ({["validator"; "message"; "foo"]} : gset string).
Proof.
  destruct (validate library_host initial proto_options) as [d|e] eqn:Hd;
    [|by vm_compute in Hd].
  exists d. split; [reflexivity|].
  destruct (descriptor_keys_and_kinds _ _ _ _ Hd) as [Hdom _].
  rewrite Hdom. vm_compute. reflexivity.
Defined.

(** X8.  On a reachable registry [extend] registers, rather than throws,
    exactly when the name is a text that is not empty, not registered and
    not the name of a member of [Object.prototype], the rule is a function
    and the message, when given, is a text. *)
Theorem extend_succeeds_iff (s : registry) (name fn msg : jsval) :
  reachable s ->
  ((exists s', extend s name fn msg = (s', Return JsUndefined)) <->
   exists n,
     name = JsStr n /\ n <> "" /\
     customValidators s !! n = None /\ inherited n = None /\
     typeof fn = "function" /\
     typeof (if is_undef msg then JsStr "Error" else msg) = "string").
Proof.
  intros Hr. split.
  - intros [s' He].
    apply (extend_accepts _ _ _ _ _ _ Hr) in He
      as (n & g & m & -> & -> & Hm & Hne & Hnone & Hinh & _ & _).
    exists n. rewrite Hm. by repeat split.
  - intros (n & -> & Hne & Hnone & Hinh & Hf & Hm).
    eexists. unfold extend. rewrite Hf, Hm. cbn.
    destruct (String.eqb_spec n ""); [done|].
    unfold obj_get. rewrite Hnone, Hinh. cbn. reflexivity.
Qed.

Lemma extend_succeeds_iff_witness :
  (exists s', extend foo_registry (JsStr "isBar") (JsFun (Native "bar"))
                JsUndefined = (s', Return JsUndefined)) /\
  ~ (exists s', extend foo_registry (JsStr "isFoo") (JsFun (Native "bar"))
                  JsUndefined = (s', Return JsUndefined)).
Proof.
  assert (reachable foo_registry) as Hr
    by apply reachable_extend, reachable_initial.
  split.
  - apply (extend_succeeds_iff _ _ _ _ Hr). exists "isBar".
    repeat split; (reflexivity || discriminate).
  - intros He. apply (extend_succeeds_iff _ _ _ _ Hr) in He
      as (n & [= <-] & _ & Hnone & _).
    vm_compute in Hnone. discriminate.
Defined.

(** X9.  A call that [extend] accepts on a reachable registry adds one
    entry to each table and touches no other: the rule's wrapper under the
    name, and under the same name the message, ['Error'] when none was
    given.  The registry has one rule more, and both entries are read back
    under the name. *)
Theorem extend_adds_one_entry
    (s s' : registry) (n : string) (g : func) (msg r : jsval) :
  reachable s ->
  extend s (JsStr n) (JsFun g) msg = (s', Return r) ->
  let text := if is_undef msg then "Error" else str_of msg in
  customValidators s' =
    <[n := JsFun (ExtendWrapper (JsFun g))]> (customValidators s) /\
  customErrorMessages s' = <[n := JsStr text]> (customErrorMessages s) /\
  size (customValidators s') = S (size (customValidators s)) /\
  obj_get (customValidators s') n = JsFun (ExtendWrapper (JsFun g)) /\
  obj_get (customErrorMessages s') n = JsStr text /\
  (forall k, k <> n ->
     obj_get (customValidators s') k = obj_get (customValidators s) k /\
     obj_get (customErrorMessages s') k = obj_get (customErrorMessages s) k).
Proof.
  intros Hr He text. subst text.
  apply (extend_accepts _ _ _ _ _ _ Hr) in He
    as (n' & g' & m & [= <-] & [= <-] & Hm & Hne & Hnone & Hinh & _ & ->).
  assert ((if is_undef msg then "Error" else str_of msg) = m) as ->.
  { destruct msg; cbn in *; congruence. }
  cbn. split; [done|]. split; [done|]. split; [|split; [|split]].
  - by apply map_size_insert_None.
  - unfold obj_get. by rewrite lookup_insert_eq.
  - unfold obj_get. by rewrite lookup_insert_eq.
  - intros k Hk. unfold obj_get. by rewrite !lookup_insert_ne.
Qed.

Lemma extend_adds_one_entry_witness :
  customErrorMessages foo_bar_registry !! "isBar" = Some (JsStr "Error") /\
  customErrorMessages foo_bar_registry !! "isFoo"
    = Some (JsStr "{ARGS[0]} is not foo") /\
  size (customValidators foo_bar_registry) = 2.
Proof.
  destruct (extend_adds_one_entry foo_registry foo_bar_registry "isBar"
              (Native "bar") JsUndefined JsUndefined)
    as (_ & Hcem & Hsize & _).
  - apply reachable_extend, reachable_initial.
  - vm_compute. reflexivity.
  - split; [|split].
    + rewrite Hcem. apply lookup_insert_eq.
    + rewrite Hcem. vm_compute. reflexivity.
    + rewrite Hsize. vm_compute. reflexivity.
Defined.

(** X10.  In every reachable registry the two tables have the same keys;
    no key is the empty text or the name of a member of
    [Object.prototype]; every rule is the wrapper of a function and every
    message is a text. *)
Theorem reachable_registry_is_well_formed (s : registry) :
  reachable s ->
  dom (customErrorMessages s) = dom (customValidators s) /\
  ("" ∉ dom (customValidators s)) /\
  ("__proto__" ∉ dom (customValidators s)) /\
  forall k, k ∈ dom (customValidators s) ->
    inherited k = None /\
    (exists g, customValidators s !! k
               = Some (JsFun (ExtendWrapper (JsFun g)))) /\
    (exists m, customErrorMessages s !! k = Some (JsStr m)).
Proof.
  intros Hr. pose proof (reachable_tables s Hr) as Ht.
  split; [|split; [|split]].
  - apply set_eq. intros k. rewrite !elem_of_dom. apply Ht.
  - rewrite elem_of_dom. intros Hk. by destruct (Ht "") as [_ [? _]].
  - rewrite elem_of_dom. intros Hk.
    by destruct (Ht "__proto__") as [_ (_ & ? & _)].
  - intros k Hk. apply elem_of_dom in Hk.
    destruct (Ht k) as [_ Hkey]. by destruct (Hkey Hk) as (_ & ? & ? & ?).
Qed.

Lemma reachable_registry_is_well_formed_witness :
  dom (customErrorMessages foo_bar_registry)
    = dom (customValidators foo_bar_registry) /\
  exists m, customErrorMessages foo_bar_registry !! "isBar" = Some (JsStr m).
Proof.
  destruct (reachable_registry_is_well_formed foo_bar_registry)
    as (Hdom & _ & _ & Hkeys).
  - unfold foo_bar_registry, foo_registry.
    apply reachable_extend, reachable_extend, reachable_initial.
  - split; [exact Hdom|].
    destruct (Hkeys "isBar") as (_ & _ & Hm); [|exact Hm].
    apply elem_of_dom. vm_compute. eauto.
Defined.

(** X11.  The registry only grows: whatever is registered in a reachable
    registry is registered, rule and message unchanged, in every registry
    the process comes to be in later. *)
Theorem registry_only_grows (s s' : registry) :
  reachable s -> later s s' ->
  customValidators s ⊆ customValidators s' /\
  customErrorMessages s ⊆ customErrorMessages s'.
Proof.
  intros Hr Hl. pose proof (reachable_ok _ Hr) as Hok.
  split; apply map_subseteq_spec; intros k v Hk.
  - by destruct (later_keeps _ _ k v Hok Hl Hk) as (_ & ? & _).
  - destruct (reachable_tables s Hr k) as [[Hcv _] _].
    destruct (Hcv ltac:(eauto)) as [w Hw].
    destruct (later_keeps _ _ k w Hok Hl Hw) as (_ & _ & Hm). by rewrite Hm.
Qed.

Lemma registry_only_grows_witness :
  customValidators foo_registry ⊆ customValidators foo_bar_registry /\
  customErrorMessages foo_registry ⊆ customErrorMessages foo_bar_registry.
Proof.
  apply registry_only_grows.
  - apply reachable_extend, reachable_initial.
  - unfold foo_bar_registry. apply later_extend, later_now.
Defined.

(** ** The rule a descriptor closes over *)

Lemma inherited_function key v :
  key <> "__proto__" -> inherited key = Some v -> is_function v = true.
Proof.
  intros Hk. unfold inherited. rewrite decide_False by done.
  intros Hl. apply elem_of_list_to_map_2 in Hl.
  cbn in Hl. set_unfold.
  repeat (destruct Hl as [Hl'|Hl]; [by simplify_eq|]). done.
Qed.

Lemma truthy_read_function (obj : gmap string jsval) key :
  (forall v, obj !! key = Some v -> truthy v = true -> is_function v = true) ->
  key <> "__proto__" ->
  truthy (obj_get obj key) = true ->
  is_function (obj_get obj key) = true.
Proof.
  intros Hown Hk. unfold obj_get.
  destruct (obj !! key) as [v|]; [by apply Hown|].
  destruct (inherited key) as [v|] eqn:Hi; [|done].
  intros _. by apply (inherited_function key).
Qed.

(** X12.  When [validate] returns a descriptor for a name on a reachable
    registry, the rule the descriptor closes over is a function exactly
    when the library object answers the name with a function, or answers
    it with a falsy value and the name is not [__proto__]: a rule taken
    from the registry object is a function but under that one name, and a
    rule taken from the library object is whatever the library has. *)
Theorem resolved_rule_is_a_function_iff
    (h : host) (s : registry) (options d : gmap string jsval)
    (name : string) :
  reachable s ->
  obj_get options "validator" = JsStr name ->
  validate h s options = Return d ->
  d !! "validator" =
    Some (JsFun (ValidatorClosure (getValidatorFn h s (JsStr name))
                   (toArray (obj_get options "arguments"))
                   (truthy (obj_get options "passIfEmpty")))) /\
  (is_function (getValidatorFn h s (JsStr name)) = true <->
   is_function (obj_get (validatorjs h) name) = true \/
   (truthy (obj_get (validatorjs h) name) = false /\ name <> "__proto__")).
Proof.
  intros Hr Hv Hd.
  destruct (validate_descriptor _ _ _ _ Hd) as (m & _ & Hval & _).
  unfold resolved_fn, resolved_args, resolved_flag in Hval.
  rewrite Hv in Hval. split; [exact Hval|].
  assert (name <> "") as Hne.
  { intros ->. unfold validate in Hd. by rewrite Hv in Hd. }
  assert (truthy (obj_get (validatorjs h) name) = false ->
          truthy (obj_get (customValidators s) name) = true) as Hreg.
  { intros Hlib.
    destruct (truthy (obj_get (customValidators s) name)) eqn:Hreg; [done|].
    unfold validate in Hd. rewrite Hv in Hd. cbn -[getValidatorFn] in Hd.
    rewrite getValidatorFn_name in Hd by done. unfold js_or in Hd.
    by rewrite Hlib, Hreg in Hd. }
  rewrite getValidatorFn_name by done. unfold js_or.
  destruct (truthy (obj_get (validatorjs h) name)) eqn:Hlib; rewrite ?Hlib.
  - split; [by left|]. by intros [?|[? _]].
  - rewrite (Hreg eq_refl). split.
    + intros Hf. right. split; [done|]. intros ->.
      unfold obj_get in Hf.
      destruct (customValidators s !! "__proto__") as [v|] eqn:Hown;
        [|done].
      destruct (reachable_tables s Hr "__proto__") as [_ Hkey].
      by destruct (Hkey ltac:(eauto)) as (_ & ? & _).
    + intros [Hf|[_ Hk]].
      { revert Hf Hlib. by destruct (obj_get (validatorjs h) name). }
      apply truthy_read_function; [|done|by apply Hreg].
      intros v Hown _. by destruct (reachable_ok _ Hr _ _ Hown) as [fn ->].
Qed.

Lemma resolved_rule_is_a_function_iff_witness :
  is_function (getValidatorFn library_host foo_bar_registry (JsStr "isEmail"))
    = true /\
  is_function (getValidatorFn library_host foo_bar_registry (JsStr "isFoo"))
    = true /\
  is_function (getValidatorFn library_host foo_bar_registry (JsStr "version"))
    = false /\
  is_function (getValidatorFn library_host foo_bar_registry
                 (JsStr "__proto__")) = false.
Proof.
  assert (reachable foo_bar_registry) as Hr.
  { unfold foo_bar_registry, foo_registry.
    apply reachable_extend, reachable_extend, reachable_initial. }
  split; [|split; [|split]].
  - assert (exists d, validate library_host foo_bar_registry
                        (<["validator" := JsStr "isEmail"]> ∅) = Return d)
      as [d Hd] by (vm_compute; eexists; reflexivity).
    destruct (resolved_rule_is_a_function_iff library_host foo_bar_registry
                (<["validator" := JsStr "isEmail"]> ∅) d "isEmail")
      as [_ Hiff]; [exact Hr|vm_compute; reflexivity|exact Hd|].
    clear Hd.
    apply Hiff. left. vm_compute. reflexivity.
  - assert (exists d, validate library_host foo_bar_registry
                        (<["validator" := JsStr "isFoo"]> ∅) = Return d)
      as [d Hd] by (vm_compute; eexists; reflexivity).
    destruct (resolved_rule_is_a_function_iff library_host foo_bar_registry
                (<["validator" := JsStr "isFoo"]> ∅) d "isFoo")
      as [_ Hiff]; [exact Hr|vm_compute; reflexivity|exact Hd|].
    clear Hd.
    apply Hiff. right. split; [vm_compute; reflexivity|discriminate].
  - assert (exists d, validate library_host foo_bar_registry
                        (<["validator" := JsStr "version"]> ∅) = Return d)
      as [d Hd] by (vm_compute; eexists; reflexivity).
    destruct (resolved_rule_is_a_function_iff library_host foo_bar_registry
                (<["validator" := JsStr "version"]> ∅) d "version")
      as [_ Hiff]; [exact Hr|vm_compute; reflexivity|exact Hd|].
    clear Hd.
    assert (is_function (obj_get (validatorjs library_host) "version")
            = false) as Hstring by (vm_compute; reflexivity).
    assert (truthy (obj_get (validatorjs library_host) "version") = true)
      as Htruthy by (vm_compute; reflexivity).
    apply not_true_iff_false. intros Hf.
    apply Hiff in Hf as [Hf|[Hf _]].
    + rewrite Hstring in Hf. discriminate.
    + rewrite Htruthy in Hf. discriminate.
  - assert (exists d, validate library_host foo_bar_registry
                        (<["validator" := JsStr "__proto__"]> ∅) = Return d)
      as [d Hd] by (vm_compute; eexists; reflexivity).
    destruct (resolved_rule_is_a_function_iff library_host foo_bar_registry
                (<["validator" := JsStr "__proto__"]> ∅) d "__proto__")
      as [_ Hiff]; [exact Hr|vm_compute; reflexivity|exact Hd|].
    clear Hd.
    assert (is_function (obj_get (validatorjs library_host) "__proto__")
            = false) as Hobject by (vm_compute; reflexivity).
    apply not_true_iff_false. intros Hf.
    apply Hiff in Hf as [Hf|[_ Hf]]; [|done].
    rewrite Hobject in Hf. discriminate.
Defined.
